(** * Claim server: settlement engine of [src/index.js]

    A shallow embedding of the two settlement handlers
    ([POST /claim/complete] and [POST /claim/referral]) together with the
    record stores declared in [src/models/Claim.js] and
    [src/models/ReferralClaim.js].

    - JavaScript values coming from JSON are an inductive type; a JSON
      number is represented by what the handlers observe of it (its sign
      class and its string rendering).
    - [BigInt] values are [Z]; [Number(bigint)] is the IEEE-754 rounding to
      53 significant bits, written out on [Z].
    - Every [await] of the handlers is a [Call] node of a finite interaction
      tree; the ledger client and the eligibility checker answer from an
      environment, the two collections answer from the store.
    - Two requests in flight are interleaved at their [await] points. *)

From Stdlib Require Import ZArith List String Ascii Bool Lia.
Import ListNotations.

Open Scope string_scope.
Open Scope Z_scope.

(* ================================================================== *)
(** ** JavaScript strings *)

Module JS.

(** [String.prototype.toLowerCase] on the ASCII range: wallet identifiers
    are base58 text, so only [A]-[Z] are affected. *)
Definition lowerChar (c : ascii) : ascii :=
  let n := nat_of_ascii c in
  if ((65 <=? n) && (n <=? 90))%nat then ascii_of_nat (n + 32) else c.

Fixpoint toLowerCase (s : string) : string :=
  match s with
  | EmptyString => EmptyString
  | String c rest => String (lowerChar c) (toLowerCase rest)
  end.

(** [String.prototype.trim] is only used by [/claim/init-fee], which is not
    part of the settlement engine. *)

(** The class [\d] of a JavaScript regular expression: [0]-[9]. *)
Definition isDigit (c : ascii) : bool :=
  let n := nat_of_ascii c in ((48 <=? n) && (n <=? 57))%nat.

Fixpoint allDigits (s : string) : bool :=
  match s with
  | EmptyString => true
  | String c rest => isDigit c && allDigits rest
  end.

(** [/^\d+$/.test(s)]: one or more digits and nothing else. *)
Definition isDigitString (s : string) : bool :=
  match s with
  | EmptyString => false
  | String _ _ => allDigits s
  end.

(* ------------------------------------------------------------------ *)
(** ** BigInt *)

Definition digitVal (c : ascii) : Z := Z.of_nat (nat_of_ascii c) - 48.

Fixpoint readDigits (acc : Z) (s : string) : Z :=
  match s with
  | EmptyString => acc
  | String c rest => readDigits (10 * acc + digitVal c) rest
  end.

(** [BigInt(s)] for a string [s] that passed [/^\d+$/]: both handlers apply
    it behind that guard only. *)
Definition BigInt_ofString (s : string) : Z := readDigits 0 s.

Definition digitChar (d : Z) : ascii := ascii_of_nat (Z.to_nat d + 48).

Fixpoint writeDigits (fuel : nat) (z : Z) (acc : string) : string :=
  match fuel with
  | O => acc
  | S fuel' =>
      let acc' := String (digitChar (z mod 10)) acc in
      if z / 10 =? 0 then acc' else writeDigits fuel' (z / 10) acc'
  end.

(** [z.toString()] of a non-negative BigInt: its decimal digits.  A number
    below [2^k] has at most [k] decimal digits, which bounds the loop. *)
Definition BigInt_toString (z : Z) : string :=
  writeDigits (S (Z.to_nat (Z.log2 z))) z EmptyString.

(** [BigInt(10) ** BigInt(dec)]. *)
Definition pow10 (dec : nat) : Z := 10 ^ Z.of_nat dec.

(** The value of [Number(b)] for a BigInt [b]: a double holding an integer,
    or an infinity. *)
Inductive double : Type :=
| DInt (z : Z)
| DInfinity (negative : bool).

(** [Number(z)]: round to 53 significant bits, ties to even; magnitudes
    that round to [2^1024] or more become infinite. *)
Definition Number_ofBigInt (z : Z) : double :=
  let a := Z.abs z in
  let e := Z.log2 a + 1 - 53 in
  if e <=? 0 then DInt z
  else
    let q := Z.shiftr a e in
    let r := a - Z.shiftl q e in
    let half := Z.shiftl 1 (e - 1) in
    let q' := if (half <? r) || ((half =? r) && Z.odd q) then q + 1 else q in
    let m := Z.shiftl q' e in
    if Z.shiftl 1 1024 <=? m then DInfinity (z <? 0)
    else DInt (Z.sgn z * m).

(* ------------------------------------------------------------------ *)
(** ** JSON values *)

(** What the handlers observe of a JavaScript number: whether it is
    negative, zero, positive or NaN, and its [ToString] rendering. *)
Inductive numClass : Type := Negative | Zero | Positive | NotANumber.

Record jsnum : Type := mkNum { num_class : numClass; num_text : string }.

Inductive jsval : Type :=
| JUndefined
| JNull
| JBool (b : bool)
| JNum (n : jsnum)
| JStr (s : string).

(** [ToBoolean]. *)
Definition truthy (v : jsval) : bool :=
  match v with
  | JUndefined | JNull => false
  | JBool b => b
  | JNum n => match num_class n with
              | Zero | NotANumber => false
              | Negative | Positive => true
              end
  | JStr s => negb (s =? EmptyString)%string
  end.

(** The template literal [`${v}`]. *)
Definition toText (v : jsval) : string :=
  match v with
  | JUndefined => "undefined"
  | JNull => "null"
  | JBool true => "true"
  | JBool false => "false"
  | JNum n => num_text n
  | JStr s => s
  end.

Definition classLeZero (c : numClass) : bool :=
  match c with
  | Negative | Zero => true
  | Positive | NotANumber => false
  end.

(** [v <= 0]; [stringToNumber] is the runtime's [ToNumber] on strings,
    reduced to the class of its result. *)
Definition leZero (stringToNumber : string -> numClass) (v : jsval) : bool :=
  match v with
  | JUndefined => false
  | JNull => true
  | JBool b => negb b
  | JNum n => classLeZero (num_class n)
  | JStr s => classLeZero (stringToNumber s)
  end.

(** [typeof v === "number" ? v : null]. *)
Definition numberOrNull (v : jsval) : option jsnum :=
  match v with
  | JNum n => Some n
  | _ => None
  end.

End JS.

(* ================================================================== *)
(** ** Results of asynchronous and throwing operations *)

(** A promise settles with a value or rejects with an error; a throwing
    synchronous call is described the same way.  Only [e.message] of an
    error is ever used by the handlers. *)
Inductive outcome (A : Type) : Type :=
| Resolved (a : A)
| Rejected (message : string).

Arguments Resolved {A} a.
Arguments Rejected {A} message.

(* ================================================================== *)
(** ** The record stores: [models/Claim.js], [models/ReferralClaim.js] *)

Inductive recordStatus : Type := Pending | Confirmed.

Module Claim.
(** [claimSchema]; [createdAt] is filled by the store and read nowhere. *)
Record t : Type := mk {
  wallet : string;
  amount : string;
  humanAmount : string;
  decimals : nat;
  tier : option JS.jsnum;
  txSig : string;
  feeSig : JS.jsval;
  status : recordStatus
}.
End Claim.

Module ReferralClaim.
(** [referralClaimSchema]. *)
Record t : Type := mk {
  wallet : string;
  amount : string;
  txSig : string;
  status : recordStatus
}.
End ReferralClaim.

(** The two collections, oldest document first. *)
Record store : Type := mkStore {
  claims : list Claim.t;
  referralClaims : list ReferralClaim.t
}.

Definition emptyStore : store := mkStore [] [].

(** [Claim.findOne({ wallet: key })]. *)
Definition Claim_findOne (key : string) (st : store) : option Claim.t :=
  find (fun d => (Claim.wallet d =? key)%string) (claims st).

(** [ReferralClaim.findOne({ wallet: key })]. *)
Definition ReferralClaim_findOne (key : string) (st : store)
  : option ReferralClaim.t :=
  find (fun d => (ReferralClaim.wallet d =? key)%string) (referralClaims st).

Definition duplicateKeyError : string := "E11000 duplicate key error".
Definition validationError : string := "ReferralClaim validation failed".

(** [Claim.create(doc)]: [wallet] carries a unique index, so the insert is
    refused when a document with the same wallet exists. *)
Definition Claim_create (doc : Claim.t) (st : store) : outcome unit * store :=
  match Claim_findOne (Claim.wallet doc) st with
  | Some _ => (Rejected duplicateKeyError, st)
  | None => (Resolved tt, mkStore (claims st ++ [doc]) (referralClaims st))
  end.

(** [ReferralClaim.create(doc)]: [wallet], [amount] and [txSig] are
    [required] (an empty string does not satisfy it) and [wallet] is
    unique. *)
Definition ReferralClaim_create (doc : ReferralClaim.t) (st : store)
  : outcome unit * store :=
  if ((ReferralClaim.wallet doc =? "") || (ReferralClaim.amount doc =? "")
      || (ReferralClaim.txSig doc =? ""))%string
  then (Rejected validationError, st)
  else
    match ReferralClaim_findOne (ReferralClaim.wallet doc) st with
    | Some _ => (Rejected duplicateKeyError, st)
    | None => (Resolved tt, mkStore (claims st) (referralClaims st ++ [doc]))
    end.

(* ================================================================== *)
(** ** What the ledger client and the checker hand back *)

Module Ledger.

(** [parsed.info] of a system-program transfer; [lamports] is the integer
    the RPC reports, on which [BigInt(info.lamports)] does not throw. *)
Record transferInfo : Type := mkInfo {
  destination : string;
  source : string;
  lamports : Z
}.

Record parsedData : Type := mkParsed {
  type : string;
  info : option transferInfo
}.

(** An instruction of a parsed transaction; a partially decoded one has
    neither [program] nor [parsed]. *)
Record parsedInstruction : Type := mkIx {
  program : option string;
  parsed : option parsedData
}.

Record txMeta : Type := mkMeta { err : option string }.

(** The result of [getParsedTransaction]; [accountKeys] already in
    base58. *)
Record parsedTransaction : Type := mkTx {
  meta : option txMeta;
  accountKeys : list string;
  instructions : list parsedInstruction
}.

(** [value] of [getSignatureStatus]. *)
Record signatureStatus : Type := mkStatus {
  confirmationStatus : option string
}.

Record mintInfo : Type := mkMint { decimals : nat }.

Record tokenAccount : Type := mkAccount { amount : Z }.

Record accountInfo : Type := mkAccountInfo { owner : string }.

(** [value] of the result of [confirmTransaction]: the status the
    transaction reached the commitment with; [resultErr] is set when its
    execution failed.  Both handlers discard the result. *)
Record signatureResult : Type := mkResult { resultErr : option string }.

(** Instructions the server puts into a payout transaction, with the
    arguments the handlers pass; the amount of a transfer is the
    [Number(...)] handed to [createTransferInstruction]. *)
Inductive instruction : Type :=
| CreateAssociatedTokenAccount (payer ata owner mint : string)
| Transfer (src dst owner : string) (amount : JS.double).

Record transaction : Type := mkTransaction {
  feePayer : string;
  recentBlockhash : string;
  body : list instruction
}.

(** [tx.add(ix)]. *)
Definition add (tx : transaction) (ix : instruction) : transaction :=
  mkTransaction (feePayer tx) (recentBlockhash tx) (body tx ++ [ix]).

End Ledger.

(** The JSON document of the checker; a missing field reads
    [JUndefined]. *)
Record eligibility : Type := mkEligibility {
  eligible : JS.jsval;
  finalTotal : JS.jsval;
  referralBonus : JS.jsval;
  tier : JS.jsval
}.

(** A [fetch] response: [ok], [status] and the promise of [r.json()];
    [None] is a JSON body that is not an object ([null] included). *)
Record fetchResponse : Type := mkFetch {
  ok : bool;
  httpStatus : JS.jsnum;
  json : outcome (option eligibility)
}.

(* ================================================================== *)
(** ** Requests and responses *)

(** [req.body || {}], destructured; an absent field is [JUndefined]. *)
Record completeBody : Type := mkCompleteBody {
  cb_wallet : JS.jsval;
  cb_feeSig : JS.jsval
}.

Record referralBody : Type := mkReferralBody {
  rb_wallet : JS.jsval;
  rb_txSig : JS.jsval
}.

Inductive payload : Type :=
| ErrorJson (error : string)
| CompleteJson (txSig amount : string) (decimals : nat)
| ReferralJson (txSig amount message : string).

Record response : Type := mkResponse { code : Z; sent : payload }.

(** [res.status(c).json({ error: m })]. *)
Definition fail (c : Z) (m : string) : response := mkResponse c (ErrorJson m).

Definition isSuccess (r : response) : bool :=
  match sent r with
  | ErrorJson _ => false
  | _ => true
  end.

(* ================================================================== *)
(** ** Handlers as interaction trees *)

(** The operations a handler awaits. *)
Inductive call : Type -> Type :=
| FindClaim (key : string) : call (option Claim.t)
| CreateClaim (doc : Claim.t) : call unit
| FindReferralClaim (key : string) : call (option ReferralClaim.t)
| CreateReferralClaim (doc : ReferralClaim.t) : call unit
| GetParsedTransaction (sig : JS.jsval) : call (option Ledger.parsedTransaction)
| GetSignatureStatus (sig : JS.jsval) : call (option Ledger.signatureStatus)
| Fetch (url : string) : call fetchResponse
| GetMint (mint : string) : call Ledger.mintInfo
| GetAccount (address : string) : call Ledger.tokenAccount
| GetAccountInfo (address : string) : call (option Ledger.accountInfo)
| GetLatestBlockhash : call string
| SendTransaction (tx : Ledger.transaction) : call string
| ConfirmTransaction (sig : string) : call Ledger.signatureResult.

(** A handler either answers the request or awaits an operation and goes
    on with its outcome. *)
Inductive prog : Type :=
| Respond (r : response)
| Call {A : Type} (c : call A) (k : outcome A -> prog).

(** The [catch] clause of both handlers:
    [res.status(500).json({ error: e.message })]. *)
Definition caught (message : string) : prog := Respond (fail 500 message).

(** [await c] inside the [try] block. *)
Definition await {A : Type} (c : call A) (k : A -> prog) : prog :=
  Call c (fun o => match o with
                   | Resolved a => k a
                   | Rejected m => caught m
                   end).

(** A synchronous call that may throw, inside the [try] block. *)
Definition attempt {A : Type} (o : outcome A) (k : A -> prog) : prog :=
  match o with
  | Resolved a => k a
  | Rejected m => caught m
  end.

Notation "x <- 'await' c ;; k" := (await c (fun x => k))
  (at level 61, c at next level, right associativity).
Notation "x <- 'attempt' c ;; k" := (attempt c (fun x => k))
  (at level 61, c at next level, right associativity).

(* ================================================================== *)
(** ** Configuration and runtime *)

(** The [process.env] values read at start-up. *)
Record config : Type := mkConfig {
  MEME_MINT : string;
  CLAIM_FEE_LAMPORTS : Z;
  FEE_COLLECTOR : string;
  TREASURY : string;
  CHECKER_URL : string
}.

(** Pure library functions the handlers call and this development does not
    look into. *)
Record runtime : Type := mkRuntime {
  (** [new PublicKey(s)]: the key in base58, or the constructor throws. *)
  toPk : string -> outcome string;
  (** [getAssociatedTokenAddressSync(mint, owner, false, ...)]: throws for an
      owner off the curve. *)
  getAssociatedTokenAddressSync : string -> string -> outcome string;
  (** [ToNumber] on strings, up to the class of the result. *)
  stringToNumber : string -> JS.numClass
}.

Section Handlers.

Variable cfg : config.
Variable rt : runtime.

(** **** Fee verification: the scan of lines 113-138 *)

(** [ix.program === name]. *)
Definition isProgram (name : string) (ix : Ledger.parsedInstruction) : bool :=
  match Ledger.program ix with
  | Some p => (p =? name)%string
  | None => false
  end.

(** [confirmedTx.value?.confirmationStatus === 'finalized']. *)
Definition isFinalized (value : option Ledger.signatureStatus) : bool :=
  match value with
  | Some s =>
      match Ledger.confirmationStatus s with
      | Some c => (c =? "finalized")%string
      | None => false
      end
  | None => false
  end.

(** The body of the [for] loop for one instruction: [true] is the [break]
    with [ok = true], [false] is falling through to the next iteration. *)
Definition feeInstructionMatches (wallet : string) (signerMatches : bool)
    (ix : Ledger.parsedInstruction) : bool :=
  if negb (isProgram "system" ix) then false
  else
    match Ledger.parsed ix with
    | Some p =>
        if negb (Ledger.type p =? "transfer")%string then false
        else
          match Ledger.info p with
          | None => false
          | Some info =>
              let to := Ledger.destination info in
              let from := Ledger.source info in
              let lamports := Ledger.lamports info in
              (to =? FEE_COLLECTOR cfg)%string
              && (from =? wallet)%string
              && (lamports =? CLAIM_FEE_LAMPORTS cfg)
              && signerMatches
          end
    | None => false
    end.

Fixpoint scanInstructions (wallet : string) (signerMatches : bool)
    (ixs : list Ledger.parsedInstruction) : bool :=
  match ixs with
  | [] => false
  | ix :: rest =>
      if feeInstructionMatches wallet signerMatches ix then true
      else scanInstructions wallet signerMatches rest
  end.

(** [messageAccs[0] === wallet]. *)
Definition signerMatches (wallet : string) (tx : Ledger.parsedTransaction)
  : bool :=
  match Ledger.accountKeys tx with
  | fromCandidate :: _ => (fromCandidate =? wallet)%string
  | [] => false
  end.

(** The final value of [ok]. *)
Definition feePaid (wallet : string) (tx : Ledger.parsedTransaction) : bool :=
  scanInstructions wallet (signerMatches wallet tx) (Ledger.instructions tx).

(** [!parsed || !parsed.meta || parsed.meta.err]. *)
Definition notFoundOrFailed (parsed : option Ledger.parsedTransaction) : bool :=
  match parsed with
  | None => true
  | Some tx =>
      match Ledger.meta tx with
      | None => true
      | Some m => match Ledger.err m with Some _ => true | None => false end
      end
  end.

(** **** [getEligibility] *)

Definition eligibilityUrl (wallet : string) : string :=
  CHECKER_URL cfg ++ "/check-eligibility?wallet=" ++ wallet.

Definition getEligibility (wallet : string)
    (k : option eligibility -> prog) : prog :=
  let url := eligibilityUrl wallet in
  r <- await (Fetch url) ;;
  if negb (ok r) then caught ("Checker " ++ JS.num_text (httpStatus r))
  else attempt (json r) k.

(** [eg?.f]. *)
Definition field (f : eligibility -> JS.jsval) (eg : option eligibility)
  : JS.jsval :=
  match eg with
  | Some e => f e
  | None => JS.JUndefined
  end.

(** **** The amount in base units: lines 152-157 and 259-260 *)

Definition amountSmallest (finalHuman : string) (dec : nat) : Z :=
  let multiplier := JS.pow10 dec in
  JS.BigInt_ofString finalHuman * multiplier.

(** **** The payout transaction: steps 5 and 6 of both handlers *)

Definition payoutTransaction (blockhash treasuryATA userATA userPk : string)
    (userAtaInfo : option Ledger.accountInfo) (amountSmallest : Z)
  : Ledger.transaction :=
  let tx := Ledger.mkTransaction (TREASURY cfg) blockhash [] in
  let tx :=
    match userAtaInfo with
    | None =>
        Ledger.add tx (Ledger.CreateAssociatedTokenAccount
                         (TREASURY cfg) userATA userPk (MEME_MINT cfg))
    | Some _ => tx
    end in
  Ledger.add tx (Ledger.Transfer treasuryATA userATA (TREASURY cfg)
                   (JS.Number_ofBigInt amountSmallest)).

(** **** [POST /claim/complete] *)

Definition claim_complete (body : completeBody) : prog :=
  let feeSig := cb_feeSig body in
  if negb (JS.truthy (cb_wallet body)) || negb (JS.truthy feeSig)
  then Respond (fail 400 "Missing wallet/feeSig")
  else
  match cb_wallet body with
  | JS.JStr wallet =>
    (* 1) block double claim *)
    exists_ <- await (FindClaim (JS.toLowerCase wallet)) ;;
    match exists_ with
    | Some _ => Respond (fail 400 "Already claimed")
    | None =>
    (* 2) verify fee transfer *)
    parsed <- await (GetParsedTransaction feeSig) ;;
    match parsed with
    | Some tx =>
      (* [parsed] is not null here; [meta] and [meta.err] remain *)
      if notFoundOrFailed parsed
      then Respond (fail 400 "Fee tx not found or failed")
      else if negb (feePaid wallet tx)
      then Respond (fail 400 "Fee payment invalid (amount/to/from mismatch)")
      else
      (* 3) recompute final allocation *)
      getEligibility wallet (fun eg =>
      if negb (JS.truthy (field eligible eg))
         || negb (JS.truthy (field finalTotal eg))
      then Respond (fail 403 "Not eligible")
      else
      let finalHuman := JS.toText (field finalTotal eg) in
      mintInfo <- await (GetMint (MEME_MINT cfg)) ;;
      let dec := Ledger.decimals mintInfo in
      if negb (JS.isDigitString finalHuman)
      then Respond (fail 400
             "finalTotal must be integer tokens (no decimal) on UI/server")
      else
      let amountSmallest := amountSmallest finalHuman dec in
      (* 4) ensure treasury has enough token balance *)
      treasuryATA <- attempt
        (getAssociatedTokenAddressSync rt (MEME_MINT cfg) (TREASURY cfg)) ;;
      treasAcc <- await (GetAccount treasuryATA) ;;
      if Ledger.amount treasAcc <? amountSmallest
      then Respond (fail 400 "Treasury balance insufficient")
      else
      (* 5) prepare user ATA *)
      userPk <- attempt (toPk rt wallet) ;;
      userATA <- attempt
        (getAssociatedTokenAddressSync rt (MEME_MINT cfg) userPk) ;;
      userAtaInfo <- await (GetAccountInfo userATA) ;;
      blockhash <- await GetLatestBlockhash ;;
      (* 6) transfer tokens *)
      let tx := payoutTransaction blockhash treasuryATA userATA userPk
                  userAtaInfo amountSmallest in
      (* 7) sign and send *)
      sig <- await (SendTransaction tx) ;;
      _ <- await (ConfirmTransaction sig) ;;
      (* 8) save single source of truth *)
      _ <- await (CreateClaim
             (Claim.mk (JS.toLowerCase wallet)
                       (JS.BigInt_toString amountSmallest)
                       finalHuman
                       dec
                       (JS.numberOrNull (field tier eg))
                       sig
                       feeSig
                       Confirmed)) ;;
      Respond (mkResponse 200 (CompleteJson sig finalHuman dec)))
    | None => Respond (fail 400 "Fee tx not found or failed")
    end
    end
  | _ => caught "wallet.toLowerCase is not a function"
  end.

(** **** [POST /claim/referral] *)

Definition claim_referral (body : referralBody) : prog :=
  let txSig := rb_txSig body in
  if negb (JS.truthy (rb_wallet body)) || negb (JS.truthy txSig)
  then Respond (fail 400 "Missing wallet or txSig")
  else
  match rb_wallet body with
  | JS.JStr wallet =>
    let normalizedWallet := JS.toLowerCase wallet in
    userPk <- attempt (toPk rt wallet) ;;
    (* 1) block double claim *)
    already <- await (FindReferralClaim normalizedWallet) ;;
    match already with
    | Some _ => Respond (fail 400 "Referral bonus already claimed")
    | None =>
    (* 2) verify the proof signature *)
    confirmedTx <- await (GetSignatureStatus txSig) ;;
    if negb (isFinalized confirmedTx)
    then Respond (fail 400 "Transaction is not confirmed.")
    else
      (* 3) recompute referral bonus *)
      getEligibility wallet (fun eg =>
      let referralBonus := field referralBonus eg in
      if negb (JS.truthy referralBonus)
         || JS.leZero (stringToNumber rt) referralBonus
      then Respond (fail 400 "No pending referral bonus to claim.")
      else
      let finalHuman := JS.toText referralBonus in
      if negb (JS.isDigitString finalHuman)
      then Respond (fail 400
             "Referral bonus must be integer tokens (no decimal) on server")
      else
      mintInfo <- await (GetMint (MEME_MINT cfg)) ;;
      let dec := Ledger.decimals mintInfo in
      let amountSmallest := amountSmallest finalHuman dec in
      (* 4) ensure treasury has enough token balance *)
      treasuryATA <- attempt
        (getAssociatedTokenAddressSync rt (MEME_MINT cfg) (TREASURY cfg)) ;;
      treasAcc <- await (GetAccount treasuryATA) ;;
      if Ledger.amount treasAcc <? amountSmallest
      then Respond (fail 500
             "Treasury balance insufficient for referral bonus")
      else
      (* 5) prepare user ATA *)
      userATA <- attempt
        (getAssociatedTokenAddressSync rt (MEME_MINT cfg) userPk) ;;
      userAtaInfo <- await (GetAccountInfo userATA) ;;
      blockhash <- await GetLatestBlockhash ;;
      (* 6) transfer referral bonus tokens *)
      let tx := payoutTransaction blockhash treasuryATA userATA userPk
                  userAtaInfo amountSmallest in
      (* 7) sign and send *)
      sig <- await (SendTransaction tx) ;;
      _ <- await (ConfirmTransaction sig) ;;
      (* 8) save the referral claim *)
      _ <- await (CreateReferralClaim
             (ReferralClaim.mk normalizedWallet
                               (JS.BigInt_toString amountSmallest)
                               sig
                               Confirmed)) ;;
      Respond (mkResponse 200
        (ReferralJson sig finalHuman
           ("Successfully claimed " ++ finalHuman ++ " referral bonus."))))
    end
  | _ => caught "wallet.toLowerCase is not a function"
  end.

End Handlers.

(* ================================================================== *)
(** ** Running handlers *)

(** One entry of the log per awaited operation, with what it settled to. *)
Inductive event : Type :=
| EvFindClaim (key : string) (o : outcome (option Claim.t))
| EvCreateClaim (doc : Claim.t) (o : outcome unit)
| EvFindReferralClaim (key : string) (o : outcome (option ReferralClaim.t))
| EvCreateReferralClaim (doc : ReferralClaim.t) (o : outcome unit)
| EvGetParsedTransaction (sig : JS.jsval)
    (o : outcome (option Ledger.parsedTransaction))
| EvGetSignatureStatus (sig : JS.jsval)
    (o : outcome (option Ledger.signatureStatus))
| EvFetch (url : string) (o : outcome fetchResponse)
| EvGetMint (mint : string) (o : outcome Ledger.mintInfo)
| EvGetAccount (address : string) (o : outcome Ledger.tokenAccount)
| EvGetAccountInfo (address : string) (o : outcome (option Ledger.accountInfo))
| EvGetLatestBlockhash (o : outcome string)
| EvSendTransaction (tx : Ledger.transaction) (o : outcome string)
| EvConfirmTransaction (sig : string) (o : outcome Ledger.signatureResult).

Definition observe {A : Type} (c : call A) : outcome A -> event :=
  match c in call T return outcome T -> event with
  | FindClaim key => EvFindClaim key
  | CreateClaim doc => EvCreateClaim doc
  | FindReferralClaim key => EvFindReferralClaim key
  | CreateReferralClaim doc => EvCreateReferralClaim doc
  | GetParsedTransaction sig => EvGetParsedTransaction sig
  | GetSignatureStatus sig => EvGetSignatureStatus sig
  | Fetch url => EvFetch url
  | GetMint mint => EvGetMint mint
  | GetAccount address => EvGetAccount address
  | GetAccountInfo address => EvGetAccountInfo address
  | GetLatestBlockhash => EvGetLatestBlockhash
  | SendTransaction tx => EvSendTransaction tx
  | ConfirmTransaction sig => EvConfirmTransaction sig
  end.

(** Reads and writes that go to the ledger (the RPC connection). *)
Definition isLedgerEvent (e : event) : bool :=
  match e with
  | EvGetParsedTransaction _ _ | EvGetSignatureStatus _ _ | EvGetMint _ _
  | EvGetAccount _ _ | EvGetAccountInfo _ _ | EvGetLatestBlockhash _
  | EvSendTransaction _ _ | EvConfirmTransaction _ _ => true
  | _ => false
  end.

(** A payout transaction handed to [sendTransaction]. *)
Definition isSubmission (e : event) : bool :=
  match e with
  | EvSendTransaction _ _ => true
  | _ => false
  end.

(** A query of the status of a transaction. *)
Definition isStatusQuery (e : event) : bool :=
  match e with
  | EvGetSignatureStatus _ _ | EvGetParsedTransaction _ _ => true
  | _ => false
  end.

(** The world outside the server: how the ledger and the checker answer an
    operation, given everything that happened before. *)
Definition environment : Type :=
  list event -> forall A : Type, call A -> outcome A.

(** One awaited operation: the collections answer from the store, everything
    else from the environment. *)
Definition perform (env : environment) (log : list event) (st : store)
    {A : Type} (c : call A) : outcome A * store :=
  match c in call T return outcome T * store with
  | FindClaim key => (Resolved (Claim_findOne key st), st)
  | CreateClaim doc => Claim_create doc st
  | FindReferralClaim key => (Resolved (ReferralClaim_findOne key st), st)
  | CreateReferralClaim doc => ReferralClaim_create doc st
  | GetParsedTransaction sig => (env log _ (GetParsedTransaction sig), st)
  | GetSignatureStatus sig => (env log _ (GetSignatureStatus sig), st)
  | Fetch url => (env log _ (Fetch url), st)
  | GetMint mint => (env log _ (GetMint mint), st)
  | GetAccount address => (env log _ (GetAccount address), st)
  | GetAccountInfo address => (env log _ (GetAccountInfo address), st)
  | GetLatestBlockhash => (env log _ GetLatestBlockhash, st)
  | SendTransaction tx => (env log _ (SendTransaction tx), st)
  | ConfirmTransaction sig => (env log _ (ConfirmTransaction sig), st)
  end.

(** The state of a run: the store and the log so far. *)
Record world : Type := mkWorld { w_store : store; w_log : list event }.

(** One request handled from start to finish. *)
Fixpoint run (env : environment) (p : prog) (w : world) : response * world :=
  match p with
  | Respond r => (r, w)
  | Call c k =>
      let (o, st') := perform env (w_log w) (w_store w) c in
      run env (k o) (mkWorld st' (w_log w ++ [observe c o]))
  end.

(** One handler advanced to its next [await]. *)
Definition step (env : environment) (p : prog) (w : world) : prog * world :=
  match p with
  | Respond r => (p, w)
  | Call c k =>
      let (o, st') := perform env (w_log w) (w_store w) c in
      (k o, mkWorld st' (w_log w ++ [observe c o]))
  end.

(** Two requests in flight.  The schedule says which handler goes on at
    each turn ([true] is the first); when the schedule is used up the first
    handler finishes, then the second. *)
Fixpoint interleave (env : environment) (schedule : list bool)
    (p1 p2 : prog) (w : world) : response * response * world :=
  match schedule with
  | [] =>
      let (r1, w1) := run env p1 w in
      let (r2, w2) := run env p2 w1 in
      (r1, r2, w2)
  | true :: rest =>
      let (p1', w') := step env p1 w in interleave env rest p1' p2 w'
  | false :: rest =>
      let (p2', w') := step env p2 w in interleave env rest p1 p2' w'
  end.

Definition start (st : store) : world := mkWorld st [].

(* ================================================================== *)
(** ** Vocabulary of the properties *)

(** The two claim tracks, each with a collection of its own. *)
Inductive channel : Type := Primary | Referral.


(** A settled record for [key] exists in the channel. *)
Definition settled (ch : channel) (key : string) (st : store) : bool :=
  match ch with
  | Primary =>
      match Claim_findOne key st with Some _ => true | None => false end
  | Referral =>
      match ReferralClaim_findOne key st with Some _ => true | None => false end
  end.

(** The operation is the insert of the record of [key] in the channel, and
    it went through. *)
Definition commits (ch : channel) (key : string) {A : Type} (c : call A)
  : outcome A -> bool :=
  match c in call T return outcome T -> bool with
  | CreateClaim doc => fun o =>
      match ch, o with
      | Primary, Resolved _ => (Claim.wallet doc =? key)%string
      | _, _ => false
      end
  | CreateReferralClaim doc => fun o =>
      match ch, o with
      | Referral, Resolved _ => (ReferralClaim.wallet doc =? key)%string
      | _, _ => false
      end
  | _ => fun _ => false
  end.

(** A handler that reports success only straight after its own insert for
    [key] went through. *)
Inductive guarded (ch : channel) (key : string) : prog -> Prop :=
| guarded_respond (r : response) :
    isSuccess r = false -> guarded ch key (Respond r)
| guarded_call (A : Type) (c : call A) (k : outcome A -> prog) :
    (forall o, commits ch key c o = true -> exists r, k o = Respond r) ->
    (forall o, commits ch key c o = false -> guarded ch key (k o)) ->
    guarded ch key (Call c k).



(** What the log holds after the wait for finality. *)
Fixpoint afterConfirm (log : list event) : list event :=
  match log with
  | [] => []
  | EvConfirmTransaction _ _ :: rest => rest
  | _ :: rest => afterConfirm rest
  end.

(** The value is a number, or numeric text, that is zero or negative. *)
Definition zeroOrNegative (rt : runtime) (v : JS.jsval) : bool :=
  match v with
  | JS.JNum n => JS.classLeZero (JS.num_class n)
  | JS.JStr s => JS.classLeZero (stringToNumber rt s)
  | _ => false
  end.

(** The instruction is a native transfer of exactly the fee from the wallet
    to the fee collector. *)
Definition isFeeTransfer (cfg : config) (wallet : string)
    (ix : Ledger.parsedInstruction) : Prop :=
  exists p i,
    Ledger.program ix = Some "system"
    /\ Ledger.parsed ix = Some p
    /\ Ledger.type p = "transfer"
    /\ Ledger.info p = Some i
    /\ Ledger.source i = wallet
    /\ Ledger.destination i = FEE_COLLECTOR cfg
    /\ Ledger.lamports i = CLAIM_FEE_LAMPORTS cfg.

(** The transaction was found, did not fail, is signed first by the wallet
    and holds the fee transfer. *)
Definition feePaymentValid (cfg : config) (wallet : string)
    (parsed : option Ledger.parsedTransaction) : Prop :=
  exists tx,
    parsed = Some tx
    /\ Ledger.meta tx = Some (Ledger.mkMeta None)
    /\ hd_error (Ledger.accountKeys tx) = Some wallet
    /\ exists ix, In ix (Ledger.instructions tx) /\ isFeeTransfer cfg wallet ix.

(** Both checks of step 2 of [/claim/complete] passed. *)
Definition feeVerified (cfg : config) (wallet : string)
    (parsed : option Ledger.parsedTransaction) : bool :=
  match parsed with
  | Some tx => negb (notFoundOrFailed parsed) && feePaid cfg wallet tx
  | None => false
  end.

(** The digits [0] repeated. *)
Fixpoint zeros (n : nat) : string :=
  match n with
  | O => EmptyString
  | S n' => String "0" (zeros n')
  end.

(** [amount = humanAmount * 10^decimals] for a stored claim. *)
Definition amountConsistent (d : Claim.t) : Prop :=
  JS.BigInt_ofString (Claim.amount d)
  = JS.BigInt_ofString (Claim.humanAmount d) * 10 ^ Z.of_nat (Claim.decimals d).

(** A settlement attempt in a channel: the route the request goes to, with
    the wallet and the fee or proof signature of its body. *)
Definition settlement (cfg : config) (rt : runtime) (ch : channel)
    (wallet proof : JS.jsval) : prog :=
  match ch with
  | Primary => claim_complete cfg rt (mkCompleteBody wallet proof)
  | Referral => claim_referral cfg rt (mkReferralBody wallet proof)
  end.

(** What the checker grants in the channel. *)
Definition entitlement (ch : channel) (eg : option eligibility) : JS.jsval :=
  match ch with
  | Primary => field finalTotal eg
  | Referral => field referralBonus eg
  end.

(** The answer to a wallet that is settled already. *)
Definition duplicateClaim (ch : channel) : response :=
  match ch with
  | Primary => fail 400 "Already claimed"
  | Referral => fail 400 "Referral bonus already claimed"
  end.

(** The answer when the treasury cannot cover the payout. *)
Definition insufficientTreasury (ch : channel) : response :=
  match ch with
  | Primary => fail 400 "Treasury balance insufficient"
  | Referral => fail 500 "Treasury balance insufficient for referral bonus"
  end.

(** The lookup that guards the channel. *)
Definition lookup (ch : channel) (key : string) (st : store) : event :=
  match ch with
  | Primary => EvFindClaim key (Resolved (Claim_findOne key st))
  | Referral => EvFindReferralClaim key (Resolved (ReferralClaim_findOne key st))
  end.

(** The wallet is one the channel can look up: [/claim/referral] builds the
    public key before its lookup, [/claim/complete] after the balance
    check. *)
Definition lookupReachable (rt : runtime) (ch : channel) (wallet : string)
  : Prop :=
  match ch with
  | Primary => True
  | Referral => exists pk, toPk rt wallet = Resolved pk
  end.

(** The wallet under which an event reads or writes a collection. *)
Definition recordKey (e : event) : option string :=
  match e with
  | EvFindClaim key _ | EvFindReferralClaim key _ => Some key
  | EvCreateClaim doc _ => Some (Claim.wallet doc)
  | EvCreateReferralClaim doc _ => Some (ReferralClaim.wallet doc)
  | _ => None
  end.

(** The record an insert of the log was given, with its payout signature. *)
Definition insertedRecord (e : event) : option (string * recordStatus) :=
  match e with
  | EvCreateClaim doc _ => Some (Claim.txSig doc, Claim.status doc)
  | EvCreateReferralClaim doc _ =>
      Some (ReferralClaim.txSig doc, ReferralClaim.status doc)
  | _ => None
  end.

(** The last operation of a log. *)
Definition lastEvent (log : list event) : option event := hd_error (rev log).


(* ================================================================== *)
(** ** Scripted environments and sample data *)

(** A ledger and a checker that always give the same answers, except that
    every submission gets a signature of its own. *)
Record script : Type := mkScript {
  s_parsed : outcome (option Ledger.parsedTransaction);
  s_status : outcome (option Ledger.signatureStatus);
  s_fetch : outcome fetchResponse;
  s_mint : outcome Ledger.mintInfo;
  s_account : outcome Ledger.tokenAccount;
  s_accountInfo : outcome (option Ledger.accountInfo);
  s_blockhash : outcome string;
  s_send : nat -> outcome string;
  s_confirm : outcome Ledger.signatureResult
}.

Definition submissions (log : list event) : nat :=
  List.length (filter isSubmission log).

Definition scripted (s : script) : environment :=
  fun log A c =>
    match c in call T return outcome T with
    | GetParsedTransaction _ => s_parsed s
    | GetSignatureStatus _ => s_status s
    | Fetch _ => s_fetch s
    | GetMint _ => s_mint s
    | GetAccount _ => s_account s
    | GetAccountInfo _ => s_accountInfo s
    | GetLatestBlockhash => s_blockhash s
    | SendTransaction _ => s_send s (submissions log)
    | ConfirmTransaction _ => s_confirm s
    | FindClaim _ | FindReferralClaim _ | CreateClaim _
    | CreateReferralClaim _ => Rejected "answered by the store"
    end.

Module Sample.

Definition cfg : config :=
  mkConfig "MemeMint1111111111111111111111111111111111"
           15000000
           "FeeCo11ector11111111111111111111111111111111"
           "Treasury111111111111111111111111111111111111"
           "http://checker".

Definition isBase58 (c : ascii) : bool :=
  let n := nat_of_ascii c in
  (((49 <=? n) && (n <=? 57))            (* 1-9 *)
   || ((65 <=? n) && (n <=? 90) && negb (n =? 73) && negb (n =? 79))
   || ((97 <=? n) && (n <=? 122) && negb (n =? 108)))%nat.

Fixpoint allBase58 (s : string) : bool :=
  match s with
  | EmptyString => true
  | String c rest => isBase58 c && allBase58 rest
  end.

Definition allZeros (s : string) : bool :=
  (JS.readDigits 0 s =? 0).

(** A runtime for the examples: keys are base58 text of 32 to 44
    characters, every owner has an associated account, and [ToNumber] is
    given on plain decimal text. *)
Definition rt : runtime :=
  mkRuntime
    (fun s => if allBase58 s && (32 <=? String.length s)%nat
                 && (String.length s <=? 44)%nat
              then Resolved s else Rejected "Invalid public key input")
    (fun mint owner => Resolved ("ata:" ++ owner))
    (fun s => match s with
              | EmptyString => JS.Zero
              | String "-" rest =>
                  if JS.isDigitString rest
                  then if allZeros rest then JS.Zero else JS.Negative
                  else JS.NotANumber
              | _ =>
                  if JS.isDigitString s
                  then if allZeros s then JS.Zero else JS.Positive
                  else JS.NotANumber
              end).

Definition wallet : string := "7xKXtg2CW87d97TXJSDpbD5jBkheTqA83TZRuJosgAsU".

(** The same letters in another case. *)
Definition walletOtherCase : string :=
  "7XKXtg2CW87d97TXJSDpbD5jBkheTqA83TZRuJosgAsU".

Definition feeIx (from to : string) (lamports : Z) : Ledger.parsedInstruction :=
  Ledger.mkIx (Some "system")
    (Some (Ledger.mkParsed "transfer" (Some (Ledger.mkInfo to from lamports)))).

(** A fee payment of [lamports] from [signer] to [to]. *)
Definition feeTx (signer to : string) (lamports : Z)
  : Ledger.parsedTransaction :=
  Ledger.mkTx (Some (Ledger.mkMeta None))
              [signer; to; "11111111111111111111111111111111"]
              [feeIx signer to lamports].

Definition num (c : JS.numClass) (text : string) : JS.jsval :=
  JS.JNum (JS.mkNum c text).

Definition checkerDoc (total bonus : JS.jsval) : eligibility :=
  mkEligibility (JS.JBool true) total bonus (num JS.Positive "2").

Definition checkerResponse (total bonus : JS.jsval) : fetchResponse :=
  mkFetch true (JS.mkNum JS.Positive "200")
          (Resolved (Some (checkerDoc total bonus))).

Definition checkerSays (total bonus : JS.jsval) : outcome fetchResponse :=
  Resolved (checkerResponse total bonus).

Definition payoutSig (n : nat) : outcome string :=
  Resolved (match n with
            | O => "payoutSig1"
            | S O => "payoutSig2"
            | _ => "payoutSigN"
            end).

Definition finalized : outcome (option Ledger.signatureStatus) :=
  Resolved (Some (Ledger.mkStatus (Some "finalized"))).

(** Everything goes well: the fee was paid by [wallet], the checker grants
    [total] tokens and a referral bonus of [bonus], the mint has [dec]
    decimals and the treasury holds [balance]. *)
Definition happy (total bonus : JS.jsval) (dec : nat) (balance : Z) : script :=
  mkScript (Resolved (Some (feeTx wallet (FEE_COLLECTOR cfg) 15000000)))
           finalized
           (checkerSays total bonus)
           (Resolved (Ledger.mkMint dec))
           (Resolved (Ledger.mkAccount balance))
           (Resolved None)
           (Resolved "blockhash1")
           payoutSig
           (Resolved (Ledger.mkResult None)).

Definition withParsed (p : outcome (option Ledger.parsedTransaction))
    (s : script) : script :=
  mkScript p (s_status s) (s_fetch s) (s_mint s) (s_account s)
           (s_accountInfo s) (s_blockhash s) (s_send s) (s_confirm s).

Definition withConfirm (c : outcome Ledger.signatureResult) (s : script)
  : script :=
  mkScript (s_parsed s) (s_status s) (s_fetch s) (s_mint s) (s_account s)
           (s_accountInfo s) (s_blockhash s) (s_send s) c.

Definition usual : script :=
  happy (JS.JStr "40000") (num JS.Positive "500") 6 1000000000000.

(** The payout was finalized, but its execution failed on the ledger. *)
Definition failedOnChain : script :=
  withConfirm (Resolved (Ledger.mkResult (Some "InstructionError"))) usual.

(** The wait for finality ran into its time limit. *)
Definition timedOut : script :=
  withConfirm (Rejected "Transaction was not confirmed in 30.00 seconds") usual.

(** An entitlement above [2^53] base units, within a 64-bit amount. *)
Definition large : script :=
  happy (JS.JStr "9007199255") (num JS.Positive "500") 9 18000000000000000000.

(** The checker reports a referral bonus of zero. *)
Definition noBonus : script :=
  happy (JS.JStr "40000") (num JS.Zero "0") 6 1000000000000.

(** The treasury holds less than any of the payouts. *)
Definition poor : script :=
  happy (JS.JStr "40000") (num JS.Positive "500") 6 1000.

(** The fee transfer is one lamport short. *)
Definition underpaid : script :=
  withParsed (Resolved (Some (feeTx wallet (FEE_COLLECTOR cfg) 14999999)))
             usual.

(** A settlement request of the sample wallets. *)
Definition request (ch : channel) (w : string) : prog :=
  settlement cfg rt ch (JS.JStr w) (JS.JStr "sig1").

(** One request against a scripted world. *)
Definition outcomeOf (s : script) (ch : channel) (w : string) (st : store)
  : response * world :=
  run (scripted s) (request ch w) (start st).

(** Two requests of one wallet, each advanced once before either goes on:
    both look the wallet up before any record is written. *)
Definition raced (ch : channel) : response * response * world :=
  interleave (scripted usual) [true; false]
    (request ch wallet) (request ch wallet) (start emptyStore).

End Sample.

(* ================================================================== *)
(** ** [POST /claim/init-fee] *)

Module InitFee.

(** White space that [String.prototype.trim] removes, on the ASCII range:
    tab, line feed, vertical tab, form feed, carriage return, space. *)
Definition isWhiteSpace (c : ascii) : bool :=
  let n := nat_of_ascii c in
  (((9 <=? n) && (n <=? 13)) || (n =? 32))%nat.

Fixpoint trimStart (s : string) : string :=
  match s with
  | EmptyString => EmptyString
  | String c rest => if isWhiteSpace c then trimStart rest else s
  end.

Fixpoint trimEnd (s : string) : string :=
  match s with
  | EmptyString => EmptyString
  | String c rest =>
      match trimEnd rest with
      | EmptyString => if isWhiteSpace c then EmptyString
                       else String c EmptyString
      | kept => String c kept
      end
  end.

(** [s.trim()]. *)
Definition trim (s : string) : string := trimEnd (trimStart s).

(** [SystemProgram.transfer({ fromPubkey, toPubkey, lamports })]; the
    lamports are the [Number(...)] the handler passes. *)
Record transfer : Type := mkTransfer {
  fromPubkey : string;
  toPubkey : string;
  lamports : JS.double
}.

(** The unsigned transaction the client is to sign. *)
Record transaction : Type := mkTransaction {
  feePayer : string;
  recentBlockhash : string;
  body : list transfer
}.

(** What the route answers: an error, or the transaction that is
    serialized into [{ transaction: b64 }]. *)
Inductive answer : Type :=
| Failure (code : Z) (error : string)
| Built (tx : transaction).

(** The route as an interaction tree over the same operations as the
    settlement handlers. *)
Inductive task : Type :=
| Answer (a : answer)
| Ask {A : Type} (c : call A) (k : outcome A -> task).

(** The message of calling [.trim] on a value that has none; it holds the
    two quotation marks of the source text. *)
Definition quote : string := String (ascii_of_nat 34) EmptyString.

Definition trimIsNotAFunction : string :=
  "(req.body.wallet || " ++ quote ++ quote ++ ").trim is not a function".

(** [await c] inside the [try] block of the route. *)
Definition await {A : Type} (c : call A) (k : A -> task) : task :=
  Ask c (fun o => match o with
                  | Resolved a => k a
                  | Rejected m => Answer (Failure 500 m)
                  end).

(** The handler, given [req.body.wallet]. *)
Definition claim_init_fee (cfg : config) (rt : runtime) (bodyWallet : JS.jsval)
  : task :=
  (* (req.body.wallet || "") *)
  let given := if JS.truthy bodyWallet then bodyWallet else JS.JStr "" in
  match given with
  | JS.JStr text =>
    let wallet := trim text in
    if (wallet =? "")%string then Answer (Failure 400 "Missing wallet")
    else
    match toPk rt wallet with
    | Rejected m => Answer (Failure 500 m)
    | Resolved userPk =>
      (* if already claimed, stop *)
      await (FindClaim (JS.toLowerCase wallet)) (fun already =>
      match already with
      | Some _ => Answer (Failure 400 "Already claimed")
      | None =>
        (* build SOL transfer tx to fee collector *)
        await GetLatestBlockhash (fun blockhash =>
        let tx := mkTransaction userPk blockhash [] in
        let tx :=
          mkTransaction (feePayer tx) (recentBlockhash tx)
            (body tx ++ [mkTransfer userPk (FEE_COLLECTOR cfg)
                           (JS.Number_ofBigInt (CLAIM_FEE_LAMPORTS cfg))]) in
        Answer (Built tx))
      end)
    end
  | _ => Answer (Failure 500 trimIsNotAFunction)
  end.

(** One request handled from start to finish. *)
Fixpoint run (env : environment) (t : task) (w : world) : answer * world :=
  match t with
  | Answer a => (a, w)
  | Ask c k =>
      let (o, st') := perform env (w_log w) (w_store w) c in
      run env (k o) (mkWorld st' (w_log w ++ [observe c o]))
  end.

End InitFee.

(* ================================================================== *)
(** ** Further vocabulary *)

(** The answer to a body without wallet or signature. *)
Definition missingFields (ch : channel) : response :=
  match ch with
  | Primary => fail 400 "Missing wallet/feeSig"
  | Referral => fail 400 "Missing wallet or txSig"
  end.


(** What a successful request answers with. *)
Definition settledJson (ch : channel) (sig finalHuman : string) (dec : nat)
  : response :=
  match ch with
  | Primary => mkResponse 200 (CompleteJson sig finalHuman dec)
  | Referral =>
      mkResponse 200
        (ReferralJson sig finalHuman
           ("Successfully claimed " ++ finalHuman ++ " referral bonus."))
  end.

(** The insert of a record of the channel. *)
Definition isInsert (e : event) : bool :=
  match e with
  | EvCreateClaim _ _ | EvCreateReferralClaim _ _ => true
  | _ => false
  end.

(** Every record is in its final state and keyed by a lowercase wallet. *)
Definition wellKept (st : store) : Prop :=
  Forall (fun d => Claim.status d = Confirmed
                   /\ JS.toLowerCase (Claim.wallet d) = Claim.wallet d)
         (claims st)
  /\ Forall (fun d => ReferralClaim.status d = Confirmed
                      /\ JS.toLowerCase (ReferralClaim.wallet d)
                         = ReferralClaim.wallet d)
            (referralClaims st).

(** The parsed instruction is the report of a system transfer that was
    built by [/claim/init-fee] and executed. *)
Definition reportedAs (t : InitFee.transfer) (ix : Ledger.parsedInstruction)
  : Prop :=
  exists p i,
    Ledger.program ix = Some "system"
    /\ Ledger.parsed ix = Some p
    /\ Ledger.type p = "transfer"
    /\ Ledger.info p = Some i
    /\ Ledger.source i = InitFee.fromPubkey t
    /\ Ledger.destination i = InitFee.toPubkey t
    /\ JS.DInt (Ledger.lamports i) = InitFee.lamports t.

(** The first and the last character of a text. *)
Definition firstChar (s : string) : option ascii :=
  match s with
  | EmptyString => None
  | String c _ => Some c
  end.

Fixpoint lastChar (s : string) : option ascii :=
  match s with
  | EmptyString => None
  | String c EmptyString => Some c
  | String _ rest => lastChar rest
  end.


(** What the store holds after a recorded request of the channel. *)
Definition recordedStore (ch : channel) (st : store) (text : string)
    (eg : option eligibility) (mi : Ledger.mintInfo) (sig : string)
    (proof : JS.jsval) : store :=
  let finalHuman := JS.toText (entitlement ch eg) in
  let dec := Ledger.decimals mi in
  let amount := JS.BigInt_toString (amountSmallest finalHuman dec) in
  match ch with
  | Primary =>
      mkStore (claims st ++
                 [Claim.mk (JS.toLowerCase text) amount finalHuman dec
                    (JS.numberOrNull (field tier eg)) sig proof Confirmed])
              (referralClaims st)
  | Referral =>
      mkStore (claims st)
              (referralClaims st ++
                 [ReferralClaim.mk (JS.toLowerCase text) amount sig Confirmed])
  end.

(** The documents a handler may insert are confirmed and keyed in
    lowercase. *)
Definition tidyCall {A : Type} (c : call A) : Prop :=
  match c with
  | CreateClaim doc =>
      Claim.status doc = Confirmed
      /\ JS.toLowerCase (Claim.wallet doc) = Claim.wallet doc
  | CreateReferralClaim doc =>
      ReferralClaim.status doc = Confirmed
      /\ JS.toLowerCase (ReferralClaim.wallet doc) = ReferralClaim.wallet doc
  | _ => True
  end.

(** A handler all of whose inserts are of that kind. *)
Inductive tidy : prog -> Prop :=
| tidy_respond (r : response) : tidy (Respond r)
| tidy_call (A : Type) (c : call A) (k : outcome A -> prog) :
    tidyCall c -> (forall o, tidy (k o)) -> tidy (Call c k).

(* ================================================================== *)
(** ** Further sample data *)

Module Cases.

Definition withStatus (v : outcome (option Ledger.signatureStatus))
    (s : script) : script :=
  mkScript (s_parsed s) v (s_fetch s) (s_mint s) (s_account s)
           (s_accountInfo s) (s_blockhash s) (s_send s) (s_confirm s).

Definition withFetch (f : outcome fetchResponse) (s : script) : script :=
  mkScript (s_parsed s) (s_status s) f (s_mint s) (s_account s)
           (s_accountInfo s) (s_blockhash s) (s_send s) (s_confirm s).


(** The ledger does not know the fee signature. *)
Definition notFound : script := Sample.withParsed (Resolved None) Sample.usual.

(** The proof transaction is confirmed but not yet finalized. *)
Definition confirmedOnly : outcome (option Ledger.signatureStatus) :=
  Resolved (Some (Ledger.mkStatus (Some "confirmed"))).

Definition unconfirmed : script := withStatus confirmedOnly Sample.usual.

(** The checker answers that the wallet is not eligible. *)
Definition refusal : fetchResponse :=
  mkFetch true (JS.mkNum JS.Positive "200")
    (Resolved (Some (mkEligibility (JS.JBool false) (Sample.num JS.Zero "0")
                       (Sample.num JS.Zero "0") JS.JUndefined))).

Definition ineligible : script := withFetch (Resolved refusal) Sample.usual.

(** The checker answers with HTTP 503. *)
Definition unavailable : fetchResponse :=
  mkFetch false (JS.mkNum JS.Positive "503") (Rejected "no body").

Definition checkerDown : script := withFetch (Resolved unavailable) Sample.usual.



(** The sample wallet with a space before and after. *)
Definition padded : string := " " ++ Sample.wallet ++ " ".

(** One request of [/claim/init-fee] against the usual world. *)
Definition initFee (bodyWallet : JS.jsval) (st : store)
  : InitFee.answer * world :=
  InitFee.run (scripted Sample.usual)
    (InitFee.claim_init_fee Sample.cfg Sample.rt bodyWallet) (start st).

(** The store after the sample wallet has claimed. *)
Definition afterClaim : store :=
  w_store (snd (Sample.outcomeOf Sample.usual Primary Sample.wallet emptyStore)).

End Cases.

(* ================================================================== *)
(** * Properties *)

(** ** Decimal text and [Number] *)

Lemma readDigits_app (s t : string) :
  forall acc, JS.readDigits acc (s ++ t) = JS.readDigits (JS.readDigits acc s) t.
Proof. induction s as [|c s IH]; intros acc; simpl; [reflexivity | apply IH]. Qed.

Lemma readDigits_zeros (n : nat) :
  forall acc, JS.readDigits acc (zeros n) = acc * 10 ^ Z.of_nat n.
Proof.
  induction n as [|n IH]; intros acc.
  - simpl. lia.
  - cbn [zeros JS.readDigits]. rewrite IH.
    replace (JS.digitVal "0") with 0 by reflexivity.
    rewrite Nat2Z.inj_succ, Z.pow_succ_r by lia. ring.
Qed.

Lemma digitVal_digitChar (d : Z) : 0 <= d < 10 -> JS.digitVal (JS.digitChar d) = d.
Proof.
  intros Hd. unfold JS.digitVal, JS.digitChar.
  rewrite nat_ascii_embedding by lia. lia.
Qed.

Lemma isDigit_digitChar (d : Z) : 0 <= d < 10 -> JS.isDigit (JS.digitChar d) = true.
Proof.
  intros Hd. unfold JS.isDigit, JS.digitChar.
  rewrite nat_ascii_embedding by lia.
  apply andb_true_intro; split; apply Nat.leb_le; lia.
Qed.

Lemma readDigits_writeDigits (fuel : nat) :
  forall z acc, 0 <= z < 2 ^ Z.of_nat fuel ->
    JS.readDigits 0 (JS.writeDigits fuel z acc) = JS.readDigits z acc.
Proof.
  induction fuel as [|fuel IH]; intros z acc Hz.
  - simpl in Hz. replace z with 0 by lia. reflexivity.
  - rewrite Nat2Z.inj_succ, Z.pow_succ_r in Hz by lia.
    cbn [JS.writeDigits].
    pose proof (Z.mod_pos_bound z 10 ltac:(lia)) as Hm.
    pose proof (Z.div_mod z 10 ltac:(lia)) as Hdm.
    destruct (z / 10 =? 0) eqn:Hq.
    + apply Z.eqb_eq in Hq. cbn [JS.readDigits].
      rewrite digitVal_digitChar by lia. f_equal. lia.
    + rewrite IH.
      * cbn [JS.readDigits]. rewrite digitVal_digitChar by lia. f_equal. lia.
      * split; [apply Z.div_pos; lia|]. apply Z.div_lt_upper_bound; lia.
Qed.

Lemma allDigits_writeDigits (fuel : nat) :
  forall z acc, 0 <= z -> JS.allDigits acc = true ->
    JS.allDigits (JS.writeDigits fuel z acc) = true.
Proof.
  induction fuel as [|fuel IH]; intros z acc Hz Hacc; [exact Hacc|].
  cbn [JS.writeDigits].
  pose proof (Z.mod_pos_bound z 10 ltac:(lia)) as Hm.
  assert (Hd : JS.allDigits (String (JS.digitChar (z mod 10)) acc) = true).
  { cbn [JS.allDigits]. rewrite isDigit_digitChar by lia. exact Hacc. }
  destruct (z / 10 =? 0); [exact Hd|].
  apply IH; [apply Z.div_pos; lia | exact Hd].
Qed.

Lemma writeDigits_nonempty (fuel : nat) :
  forall z acc, acc <> EmptyString -> JS.writeDigits fuel z acc <> EmptyString.
Proof.
  induction fuel as [|fuel IH]; intros z acc Hacc; [exact Hacc|].
  cbn [JS.writeDigits]. destruct (z / 10 =? 0); [discriminate|].
  apply IH. discriminate.
Qed.

Lemma log2_fuel (z : Z) : 0 <= z -> 0 <= z < 2 ^ Z.of_nat (S (Z.to_nat (Z.log2 z))).
Proof.
  intros Hz. split; [exact Hz|].
  rewrite Nat2Z.inj_succ, Z2Nat.id by apply Z.log2_nonneg.
  destruct (Z.eq_dec z 0) as [->|Hnz]; [reflexivity|].
  apply Z.log2_spec. lia.
Qed.

(** Reading back the decimal text of a non-negative BigInt gives the number. *)
Lemma BigInt_roundtrip (z : Z) : 0 <= z -> JS.BigInt_ofString (JS.BigInt_toString z) = z.
Proof.
  intros Hz. unfold JS.BigInt_ofString, JS.BigInt_toString.
  rewrite readDigits_writeDigits by (apply log2_fuel; exact Hz). reflexivity.
Qed.

Lemma BigInt_toString_digits (z : Z) : 0 <= z -> JS.isDigitString (JS.BigInt_toString z) = true.
Proof.
  intros Hz. unfold JS.isDigitString, JS.BigInt_toString.
  cbn [JS.writeDigits].
  set (acc := String (JS.digitChar (z mod 10)) EmptyString).
  pose proof (Z.mod_pos_bound z 10 ltac:(lia)) as Hm.
  assert (Hacc : JS.allDigits acc = true).
  { unfold acc. cbn [JS.allDigits]. rewrite isDigit_digitChar by lia. reflexivity. }
  destruct (z / 10 =? 0).
  - unfold acc at 1. exact Hacc.
  - pose proof (writeDigits_nonempty (Z.to_nat (Z.log2 z)) (z / 10) acc ltac:(discriminate)) as Hne.
    destruct (JS.writeDigits (Z.to_nat (Z.log2 z)) (z / 10) acc) eqn:E; [congruence|].
    rewrite <- E. apply allDigits_writeDigits; [apply Z.div_pos; lia | exact Hacc].
Qed.

Lemma readDigits_nonneg (s : string) :
  forall acc, 0 <= acc -> JS.allDigits s = true -> 0 <= JS.readDigits acc s.
Proof.
  induction s as [|c s IH]; intros acc Hacc Hs; [exact Hacc|].
  cbn [JS.allDigits] in Hs. apply andb_prop in Hs. destruct Hs as [Hc Hs].
  cbn [JS.readDigits]. apply IH; [|exact Hs].
  unfold JS.isDigit in Hc. apply andb_prop in Hc. destruct Hc as [Hlo _].
  apply Nat.leb_le in Hlo. unfold JS.digitVal. lia.
Qed.

Lemma isDigitString_allDigits (s : string) : JS.isDigitString s = true -> JS.allDigits s = true.
Proof. destruct s; [discriminate | auto]. Qed.

Lemma amountSmallest_nonneg (H : string) (D : nat) :
  JS.isDigitString H = true -> 0 <= amountSmallest H D.
Proof.
  intros HH. unfold amountSmallest, JS.pow10, JS.BigInt_ofString.
  apply Z.mul_nonneg_nonneg.
  - apply readDigits_nonneg; [lia | apply isDigitString_allDigits, HH].
  - apply Z.pow_nonneg. lia.
Qed.

(** The amount in base units is the human amount followed by [dec] zeros. *)
Lemma amountSmallest_zeros (H : string) (D : nat) :
  amountSmallest H D = JS.BigInt_ofString (H ++ zeros D).
Proof.
  unfold amountSmallest, JS.pow10, JS.BigInt_ofString.
  rewrite readDigits_app, readDigits_zeros. reflexivity.
Qed.

(** [Number] is exact up to [2^53] in magnitude. *)
Lemma Number_exact (z : Z) : Z.abs z <= 2 ^ 53 -> JS.Number_ofBigInt z = JS.DInt z.
Proof.
  intros Hz. unfold JS.Number_ofBigInt.
  destruct (Z.log2 (Z.abs z) + 1 - 53 <=? 0) eqn:He; [reflexivity|].
  apply Z.leb_gt in He.
  assert (Habs : Z.abs z = 2 ^ 53).
  { destruct (Z.eq_dec (Z.abs z) (2 ^ 53)) as [E|N]; [exact E|].
    assert (Hlt : Z.abs z < 2 ^ 53) by lia.
    destruct (Z.eq_dec (Z.abs z) 0) as [E0|N0].
    - rewrite E0 in He. simpl in He. lia.
    - apply Z.log2_lt_pow2 in Hlt; lia. }
  destruct (Z.abs_eq_or_opp z) as [E|E]; rewrite E in Habs.
  - subst z. reflexivity.
  - replace z with (- 2 ^ 53) by lia. reflexivity.
Qed.

(** ** The collections *)

Section Stores.

Lemma find_snoc {A : Type} (f : A -> bool) (l : list A) (x : A) :
  find f (l ++ [x]) = match find f l with
                      | Some y => Some y
                      | None => if f x then Some x else None
                      end.
Proof.
  induction l as [|a l IH]; simpl; [reflexivity|].
  destruct (f a); [reflexivity | exact IH].
Qed.




(** What [Claim.create] does: nothing and an error when the wallet is
    there, the document appended when it is not. *)
Lemma Claim_create_inv (doc : Claim.t) (st st' : store) (o : outcome unit) :
  Claim_create doc st = (o, st') ->
  (o = Rejected duplicateKeyError /\ st' = st
   /\ settled Primary (Claim.wallet doc) st = true)
  \/ (o = Resolved tt
      /\ st' = mkStore (claims st ++ [doc]) (referralClaims st)
      /\ settled Primary (Claim.wallet doc) st = false).
Proof.
  unfold Claim_create, settled.
  destruct (Claim_findOne (Claim.wallet doc) st); intros H; inversion H; auto.
Qed.

Lemma ReferralClaim_create_inv (doc : ReferralClaim.t) (st st' : store)
    (o : outcome unit) :
  ReferralClaim_create doc st = (o, st') ->
  ((exists m, o = Rejected m) /\ st' = st)
  \/ (o = Resolved tt
      /\ st' = mkStore (claims st) (referralClaims st ++ [doc])
      /\ settled Referral (ReferralClaim.wallet doc) st = false).
Proof.
  unfold ReferralClaim_create, settled.
  destruct (_ || _).
  - intros H; inversion H; eauto.
  - destruct (ReferralClaim_findOne (ReferralClaim.wallet doc) st);
      intros H; inversion H; eauto.
Qed.

Lemma settled_after_Claim (key : string) (doc : Claim.t) (st : store) :
  settled Primary key (mkStore (claims st ++ [doc]) (referralClaims st))
  = settled Primary key st || (Claim.wallet doc =? key)%string.
Proof.
  unfold settled, Claim_findOne. cbn [claims]. rewrite find_snoc.
  destruct (find _ (claims st)); [reflexivity|].
  destruct (Claim.wallet doc =? key)%string; reflexivity.
Qed.

Lemma settled_after_Referral (key : string) (doc : ReferralClaim.t) (st : store) :
  settled Referral key (mkStore (claims st) (referralClaims st ++ [doc]))
  = settled Referral key st || (ReferralClaim.wallet doc =? key)%string.
Proof.
  unfold settled, ReferralClaim_findOne. cbn [referralClaims]. rewrite find_snoc.
  destruct (find _ (referralClaims st)); [reflexivity|].
  destruct (ReferralClaim.wallet doc =? key)%string; reflexivity.
Qed.


Variable env : environment.

(** An operation never removes a settled record, and leaves the other
    collection alone. *)
Lemma perform_settled (ch : channel) (key : string) (log : list event)
    (st st' : store) (A : Type) (c : call A) (o : outcome A) :
  perform env log st c = (o, st') ->
  settled ch key st = true -> settled ch key st' = true.
Proof.
  destruct c; cbn [perform]; intros H Hs;
    try (inversion H; subst; exact Hs).
  - apply Claim_create_inv in H.
    destruct H as [(_ & -> & _)|(_ & -> & _)]; [exact Hs|].
    destruct ch; [rewrite settled_after_Claim, Hs; reflexivity | exact Hs].
  - apply ReferralClaim_create_inv in H.
    destruct H as [(_ & ->)|(_ & -> & _)]; [exact Hs|].
    destruct ch; [exact Hs | rewrite settled_after_Referral, Hs; reflexivity].
Qed.

(** The insert for [key] goes through only when no record is there, and
    puts one. *)
Lemma perform_commits (ch : channel) (key : string) (log : list event)
    (st st' : store) (A : Type) (c : call A) (o : outcome A) :
  perform env log st c = (o, st') ->
  commits ch key c o = true ->
  settled ch key st = false /\ settled ch key st' = true.
Proof.
  destruct c; cbn [perform commits]; intros H Hc; try discriminate.
  - destruct ch; [|discriminate]. destruct o; [|discriminate].
    apply String.eqb_eq in Hc. subst key.
    apply Claim_create_inv in H.
    destruct H as [(E & _)|(_ & -> & Hn)]; [discriminate|].
    split; [exact Hn|]. rewrite settled_after_Claim, String.eqb_refl.
    apply orb_true_r.
  - destruct ch; [discriminate|]. destruct o; [|discriminate].
    apply String.eqb_eq in Hc. subst key.
    apply ReferralClaim_create_inv in H.
    destruct H as [([m E] & _)|(_ & -> & Hn)]; [discriminate|].
    split; [exact Hn|]. rewrite settled_after_Referral, String.eqb_refl.
    apply orb_true_r.
Qed.






Lemma run_guarded (ch : channel) (key : string) (p : prog) :
  guarded ch key p ->
  forall (w w' : world) (r : response),
    run env p w = (r, w') ->
    (isSuccess r = false
     /\ (settled ch key (w_store w) = true -> settled ch key (w_store w') = true))
    \/ (settled ch key (w_store w) = false
        /\ settled ch key (w_store w') = true).
Proof.
  induction 1 as [r0 Hr|A c k Hyes Hno IH]; cbn [run]; intros w w' r H.
  - inversion H; subst. left. auto.
  - destruct (perform env (w_log w) (w_store w) c) as [o st'] eqn:E.
    destruct (commits ch key c o) eqn:Hc.
    + destruct (Hyes o Hc) as [r' Hk]. rewrite Hk in H. cbn [run] in H.
      inversion H; subst. cbn [w_store]. right.
      exact (perform_commits _ _ _ _ _ _ _ _ E Hc).
    + destruct (IH o Hc _ _ _ H) as [(Hf & Hs)|(Hn & Hs)]; cbn [w_store] in *.
      * left. split; [exact Hf|]. intros Hw. apply Hs.
        exact (perform_settled _ _ _ _ _ _ _ _ E Hw).
      * right. split; [|exact Hs].
        destruct (settled ch key (w_store w)) eqn:Hw; [|reflexivity].
        rewrite (perform_settled _ _ _ _ _ _ _ _ E Hw) in Hn. discriminate.
Qed.




End Stores.

(** ** Walking through a handler *)

(** [guard_walk] shows a handler [guarded] by following its text: at each
    [await] both outcomes, at each test both branches. *)
Ltac guard_step :=
  match goal with
  | |- guarded _ _ (Respond _) => apply guarded_respond; reflexivity
  | |- guarded _ _ (Call _ _) =>
      apply guarded_call;
      [ let o := fresh "o" in let Hc := fresh "Hc" in
        intros o Hc; cbn [commits] in Hc;
        first [ discriminate Hc
              | destruct o; [eexists; reflexivity | discriminate Hc] ]
      | let o := fresh "o" in let Hc := fresh "Hc" in
        intros o Hc; destruct o;
        cbn [commits Claim.wallet ReferralClaim.wallet] in Hc;
        try (rewrite String.eqb_refl in Hc; discriminate Hc); clear Hc ]
  | |- guarded _ _ (match ?x with _ => _ end) => destruct x
  | |- guarded _ _ (if ?x then _ else _) => destruct x
  end.

Ltac guard_walk :=
  repeat first
    [ progress unfold await, attempt, caught, getEligibility
    | progress cbn beta iota
    | guard_step ].

Lemma claim_complete_guarded (cfg : config) (rt : runtime) (w : string)
    (feeSig : JS.jsval) :
  guarded Primary (JS.toLowerCase w)
    (claim_complete cfg rt (mkCompleteBody (JS.JStr w) feeSig)).
Proof.
  unfold claim_complete. cbn [cb_wallet cb_feeSig].
  guard_walk.
Qed.

Lemma claim_referral_guarded (cfg : config) (rt : runtime) (w : string)
    (txSig : JS.jsval) :
  guarded Referral (JS.toLowerCase w)
    (claim_referral cfg rt (mkReferralBody (JS.JStr w) txSig)).
Proof.
  unfold claim_referral. cbn [rb_wallet rb_txSig].
  guard_walk.
Qed.

Lemma settlement_guarded (cfg : config) (rt : runtime) (ch : channel)
    (w : string) (proof : JS.jsval) :
  guarded ch (JS.toLowerCase w) (settlement cfg rt ch (JS.JStr w) proof).
Proof.
  destruct ch; [apply claim_complete_guarded | apply claim_referral_guarded].
Qed.

(** [walk H] follows a run [H : run env p w = (resp, w')] along every path
    of the handler; [leaf H] reads the answer, the store and the log off the
    end of a path, and [pick] matches the events a statement speaks of
    against that log. *)
Ltac walk H :=
  repeat first
    [ progress unfold await, attempt, caught in H
    | progress cbn [run perform fst snd w_log w_store start observe app
                    cb_wallet cb_feeSig rb_wallet rb_txSig] in H
    | match type of H with
      | context [match ?x with _ => _ end] => destruct x eqn:?
      end ].

Ltac leaf H :=
  inversion H; subst; clear H;
  cbn [w_log w_store start In rev app hd_error lastEvent] in *.

Ltac pick :=
  repeat match goal with
  | H : False |- _ => destruct H
  | H : @eq event _ ?e |- _ => is_var e; subst e
  | H : @eq event _ _ |- _ => first [discriminate H | injection H as ?; subst]
  | H : Resolved _ = Resolved _ |- _ => injection H as ?; subst
  | H : Some _ = Some _ |- _ => injection H as ?; subst
  | H : @eq (option _) (Some _) None |- _ => discriminate H
  | H : @eq (option _) None (Some _) |- _ => discriminate H
  | H : ?a = Resolved _, H' : ?a = Resolved _ |- _ =>
      rewrite H in H'; injection H' as ?; subst
  | H : _ \/ _ |- _ => destruct H as [H|H]
  end.

Ltac ltb_facts :=
  repeat match goal with
  | H : (_ <? _) = false |- _ => apply Z.ltb_ge in H
  | H : (_ <? _) = true |- _ => apply Z.ltb_lt in H
  end.

Ltac bools :=
  repeat match goal with
  | H : negb _ = false |- _ => apply negb_false_iff in H
  | H : negb _ = true |- _ => apply negb_true_iff in H
  | H : _ || _ = false |- _ => apply orb_false_elim in H; destruct H
  end.

Ltac open_settlement H :=
  unfold settlement, claim_complete, claim_referral, getEligibility in H.

Lemma create_cases (st : store) (doc : Claim.t) (o : outcome unit) (s : store) :
  Claim_create doc st = (o, s) ->
  s = st \/ (o = Resolved tt /\ s = mkStore (claims st ++ [doc]) (referralClaims st)).
Proof.
  intros H. apply Claim_create_inv in H.
  destruct H as [(_ & -> & _)|(-> & -> & _)]; auto.
Qed.

Lemma create_referral_cases (st : store) (doc : ReferralClaim.t)
    (o : outcome unit) (s : store) :
  ReferralClaim_create doc st = (o, s) ->
  s = st \/ (o = Resolved tt /\ s = mkStore (claims st) (referralClaims st ++ [doc])).
Proof.
  intros H. apply ReferralClaim_create_inv in H.
  destruct H as [(_ & ->)|(-> & -> & _)]; auto.
Qed.

Ltac creates :=
  repeat match goal with
  | H : Claim_create _ _ = (_, _) |- _ =>
      apply create_cases in H; destruct H as [H|[? H]];
      try discriminate; subst
  | H : ReferralClaim_create _ _ = (_, _) |- _ =>
      apply create_referral_cases in H; destruct H as [H|[? H]];
      try discriminate; subst
  end.

(** Every record handed to an insert carries status [Confirmed] and the
    signature of a payout that was sent and whose wait for finality
    returned. *)
Lemma record_follows_confirmation (cfg : config) (rt : runtime)
    (env : environment) (ch : channel) (wallet proof : JS.jsval) (st : store)
    (resp : response) (w' : world) (e : event) (sig : string)
    (status : recordStatus) :
  run env (settlement cfg rt ch wallet proof) (start st) = (resp, w') ->
  In e (w_log w') ->
  insertedRecord e = Some (sig, status) ->
  status = Confirmed
  /\ (exists tx, In (EvSendTransaction tx (Resolved sig)) (w_log w'))
  /\ (exists res, In (EvConfirmTransaction sig (Resolved res)) (w_log w')).
Proof.
  intros H He Hi.
  destruct ch; open_settlement H; walk H; leaf H; pick;
    cbn [insertedRecord Claim.txSig Claim.status ReferralClaim.txSig
         ReferralClaim.status] in Hi;
    try discriminate Hi; pick;
    (split; [reflexivity|]); split; eexists; cbn [In]; eauto 20.
Qed.

(** A request that is answered with an error leaves the store as it was. *)
Lemma failure_writes_nothing (cfg : config) (rt : runtime)
    (env : environment) (ch : channel) (wallet proof : JS.jsval)
    (w w' : world) (resp : response) :
  run env (settlement cfg rt ch wallet proof) w = (resp, w') ->
  isSuccess resp = false ->
  w_store w' = w_store w.
Proof.
  intros H Hs.
  destruct ch; open_settlement H; walk H; creates;
    inversion H; subst; clear H; cbn [w_store]; try reflexivity;
    cbn [isSuccess sent fail] in Hs; discriminate Hs.
Qed.

(** A request that is answered with success has its record in the store. *)
Lemma success_settles (cfg : config) (rt : runtime)
    (env : environment) (ch : channel) (w : string) (proof : JS.jsval)
    (w0 w' : world) (resp : response) :
  run env (settlement cfg rt ch (JS.JStr w) proof) w0 = (resp, w') ->
  isSuccess resp = true ->
  settled ch (JS.toLowerCase w) (w_store w') = true.
Proof.
  intros H Hs.
  destruct (run_guarded env ch _ _ (settlement_guarded cfg rt ch w proof) _ _ _ H)
    as [(F & _)|(_ & S)]; congruence.
Qed.

Lemma truthy_text (s : string) : s <> EmptyString -> JS.truthy (JS.JStr s) = true.
Proof.
  intros H. cbn [JS.truthy]. apply negb_true_iff, String.eqb_neq. exact H.
Qed.

Lemma settled_lookup (ch : channel) (key : string) (st : store) :
  settled ch key st = true ->
  match ch with
  | Primary => exists d, Claim_findOne key st = Some d
  | Referral => exists d, ReferralClaim_findOne key st = Some d
  end.
Proof.
  destruct ch; unfold settled;
    match goal with |- context [match ?x with _ => _ end] => destruct x end;
    intros H; try discriminate H; eexists; reflexivity.
Qed.

(** A well-formed request for a settled wallet stops at the lookup. *)
Lemma repeat_rejected (cfg : config) (rt : runtime) (env : environment)
    (ch : channel) (w : string) (proof : JS.jsval) (w0 : world) :
  w <> EmptyString ->
  JS.truthy proof = true ->
  lookupReachable rt ch w ->
  settled ch (JS.toLowerCase w) (w_store w0) = true ->
  run env (settlement cfg rt ch (JS.JStr w) proof) w0
  = (duplicateClaim ch,
     mkWorld (w_store w0)
             (w_log w0 ++ [lookup ch (JS.toLowerCase w) (w_store w0)])).
Proof.
  intros Hw Hp Hr Hs. apply truthy_text in Hw. apply settled_lookup in Hs.
  destruct ch; unfold settlement, claim_complete, claim_referral;
    cbn [cb_wallet cb_feeSig rb_wallet rb_txSig];
    rewrite Hw, Hp; cbn [negb orb].
  - destruct Hs as [d Hd]. unfold await. cbn [run perform observe].
    unfold lookup. rewrite Hd. reflexivity.
  - destruct Hr as [pk Hpk]. destruct Hs as [d Hd].
    rewrite Hpk. unfold attempt, await. cbn [run perform observe].
    unfold lookup. rewrite Hd. reflexivity.
Qed.

Lemma Forall_snoc {A : Type} (P : A -> Prop) (l : list A) (x : A) :
  Forall P l -> P x -> Forall P (l ++ [x]).
Proof.
  intros Hl Hx. apply Forall_app. split; [exact Hl | constructor; [exact Hx | constructor]].
Qed.

Lemma stored_amount_consistent (w : string) (finalHuman : string) (dec : nat)
    (t : option JS.jsnum) (sig : string) (feeSig : JS.jsval) :
  JS.isDigitString finalHuman = true ->
  amountConsistent
    (Claim.mk w (JS.BigInt_toString (amountSmallest finalHuman dec))
              finalHuman dec t sig feeSig Confirmed).
Proof.
  intros Hd. unfold amountConsistent.
  cbn [Claim.amount Claim.humanAmount Claim.decimals].
  rewrite BigInt_roundtrip by (apply amountSmallest_nonneg; exact Hd).
  reflexivity.
Qed.

Lemma transfer_of_payout (cfg : config)
    (blockhash treasuryATA userATA userPk : string)
    (info : option Ledger.accountInfo) (a : Z)
    (src dst owner : string) (amt : JS.double) :
  In (Ledger.Transfer src dst owner amt)
     (Ledger.body (payoutTransaction cfg blockhash treasuryATA userATA userPk info a)) ->
  amt = JS.Number_ofBigInt a /\ dst = userATA /\ src = treasuryATA.
Proof.
  unfold payoutTransaction, Ledger.add. destruct info; cbn; intros H;
    repeat destruct H as [H|H]; try discriminate H; try contradiction;
    injection H as <- <- <- <-; auto.
Qed.

Lemma keys_are_lowercase (cfg : config) (rt : runtime) (env : environment)
    (ch : channel) (w : string) (proof : JS.jsval) (st : store)
    (resp : response) (w' : world) (e : event) (key : string) :
  run env (settlement cfg rt ch (JS.JStr w) proof) (start st) = (resp, w') ->
  In e (w_log w') ->
  recordKey e = Some key ->
  key = JS.toLowerCase w.
Proof.
  intros H He Hk.
  destruct ch; open_settlement H; walk H; leaf H; pick;
    cbn [recordKey Claim.wallet ReferralClaim.wallet] in Hk;
    try discriminate Hk; injection Hk as <-; reflexivity.
Qed.

Lemma other_signer_rejected (cfg : config) (rt : runtime) (env : environment)
    (w : string) (proof sig : JS.jsval) (st : store)
    (resp : response) (w' : world) (tx : Ledger.parsedTransaction) :
  run env (settlement cfg rt Primary (JS.JStr w) proof) (start st) = (resp, w') ->
  In (EvGetParsedTransaction sig (Resolved (Some tx))) (w_log w') ->
  feePaid cfg w tx = false ->
  isSuccess resp = false
  /\ w_store w' = st
  /\ lastEvent (w_log w')
     = Some (EvGetParsedTransaction sig (Resolved (Some tx))).
Proof.
  intros H Hp Hf.
  open_settlement H; walk H; leaf H; pick; bools; try congruence;
    repeat split; reflexivity.
Qed.

(** ** Fee verification against its description *)

Section Fee.

Variable cfg : config.

Lemma isProgram_spec (name : string) (ix : Ledger.parsedInstruction) :
  isProgram name ix = true <-> Ledger.program ix = Some name.
Proof.
  unfold isProgram. destruct (Ledger.program ix) as [p|].
  - rewrite String.eqb_eq. split; congruence.
  - split; discriminate.
Qed.

Lemma feeInstructionMatches_spec (wallet : string) (signer : bool)
    (ix : Ledger.parsedInstruction) :
  feeInstructionMatches cfg wallet signer ix = true
  <-> signer = true /\ isFeeTransfer cfg wallet ix.
Proof.
  unfold feeInstructionMatches, isFeeTransfer. split.
  - destruct (isProgram "system" ix) eqn:Hp; [|discriminate].
    apply isProgram_spec in Hp. cbn [negb].
    destruct (Ledger.parsed ix) as [p|] eqn:Hpa; [|discriminate].
    destruct (Ledger.type p =? "transfer")%string eqn:Ht; [|discriminate].
    apply String.eqb_eq in Ht. cbn [negb].
    destruct (Ledger.info p) as [i|] eqn:Hi; [|discriminate].
    cbn zeta. rewrite !andb_true_iff, !String.eqb_eq, Z.eqb_eq.
    intros [[[Hdst Hsrc] Hl] Hs].
    split; [exact Hs|]. exists p, i. repeat split; assumption.
  - intros (Hs & p & i & Hp & Hpa & Ht & Hi & Hsrc & Hdst & Hl).
    apply isProgram_spec in Hp. rewrite Hp, Hpa, Ht, Hi. cbn.
    rewrite Hsrc, Hdst, Hl, Hs, !String.eqb_refl, Z.eqb_refl. reflexivity.
Qed.

Lemma scanInstructions_spec (wallet : string) (signer : bool)
    (ixs : list Ledger.parsedInstruction) :
  scanInstructions cfg wallet signer ixs = true
  <-> signer = true /\ exists ix, In ix ixs /\ isFeeTransfer cfg wallet ix.
Proof.
  induction ixs as [|ix rest IH]; cbn [scanInstructions].
  - split; [discriminate | intros (_ & ix & [] & _)].
  - destruct (feeInstructionMatches cfg wallet signer ix) eqn:Hm.
    + apply feeInstructionMatches_spec in Hm. destruct Hm as [Hs Hf].
      split; [|reflexivity]. intros _. split; [exact Hs|].
      exists ix. split; [left; reflexivity | exact Hf].
    + rewrite IH. split.
      * intros (Hs & ix' & Hin & Hf). split; [exact Hs|].
        exists ix'. split; [right; exact Hin | exact Hf].
      * intros (Hs & ix' & [E|Hin] & Hf).
        -- subst ix'.
           assert (feeInstructionMatches cfg wallet signer ix = true)
             by (apply feeInstructionMatches_spec; auto).
           congruence.
        -- split; [exact Hs|]. exists ix'. auto.
Qed.

Lemma signerMatches_spec (wallet : string) (tx : Ledger.parsedTransaction) :
  signerMatches wallet tx = true
  <-> hd_error (Ledger.accountKeys tx) = Some wallet.
Proof.
  unfold signerMatches. destruct (Ledger.accountKeys tx) as [|a rest]; cbn.
  - split; discriminate.
  - rewrite String.eqb_eq. split; congruence.
Qed.

Lemma feePaid_spec (wallet : string) (tx : Ledger.parsedTransaction) :
  feePaid cfg wallet tx = true
  <-> hd_error (Ledger.accountKeys tx) = Some wallet
      /\ exists ix, In ix (Ledger.instructions tx) /\ isFeeTransfer cfg wallet ix.
Proof.
  unfold feePaid. rewrite scanInstructions_spec, signerMatches_spec. tauto.
Qed.

Lemma notFoundOrFailed_spec (tx : Ledger.parsedTransaction) :
  notFoundOrFailed (Some tx) = false
  <-> Ledger.meta tx = Some (Ledger.mkMeta None).
Proof.
  unfold notFoundOrFailed. destruct (Ledger.meta tx) as [[[e|]]|]; split;
    intros H; try discriminate H; reflexivity.
Qed.

Lemma feeVerified_spec (wallet : string)
    (parsed : option Ledger.parsedTransaction) :
  feeVerified cfg wallet parsed = true <-> feePaymentValid cfg wallet parsed.
Proof.
  unfold feeVerified, feePaymentValid. destruct parsed as [tx|].
  - rewrite andb_true_iff, negb_true_iff, notFoundOrFailed_spec, feePaid_spec.
    split.
    + intros (Hm & Hs & Hix). exists tx. auto.
    + intros (tx' & E & Hm & Hs & Hix). injection E as <-. auto.
  - split; [discriminate | intros (tx & E & _); discriminate E].
Qed.

End Fee.

Ltac fee_goal :=
  unfold feeVerified;
  repeat match goal with
  | E : notFoundOrFailed _ = _ |- _ => rewrite E
  | E : feePaid _ _ _ = _ |- _ => rewrite E
  end; cbn [negb andb].

Ltac fee_value H :=
  unfold feeVerified in H;
  repeat match goal with
  | E : notFoundOrFailed _ = _ |- _ => rewrite E in H
  | E : feePaid _ _ _ = _ |- _ => rewrite E in H
  end; cbn [negb andb] in H.

Ltac found := vm_compute; repeat first [left; reflexivity | right].

(* ================================================================== *)
(** * The claims *)




(** C2.  When the wallet of a well-formed request already has a record in
    the channel, the request is answered HTTP 400 with the already-claimed
    message of the channel, the store is untouched, and the lookup is the
    only operation of the run: no ledger read, no transaction built or
    submitted.  On the referral channel the wallet must be text the
    public-key constructor accepts, since the key is built before the
    lookup. *)
Theorem C2_repeat_settlement_rejected (cfg : config) (rt : runtime)
    (env : environment) (ch : channel) (w : string) (proof : JS.jsval)
    (st : store) :
  w <> EmptyString ->
  JS.truthy proof = true ->
  lookupReachable rt ch w ->
  settled ch (JS.toLowerCase w) st = true ->
  run env (settlement cfg rt ch (JS.JStr w) proof) (start st)
  = (duplicateClaim ch, mkWorld st [lookup ch (JS.toLowerCase w) st]).
Proof.
  intros Hw Hp Hr Hs.
  exact (repeat_rejected cfg rt env ch w proof (start st) Hw Hp Hr Hs).
Qed.

(** C2_repeat_settlement_rejected on the referral channel: the wallet is
    settled by a first request and asked for again in another case. *)
Lemma C2_witness :
  let st := w_store (snd (Sample.outcomeOf Sample.usual Referral Sample.wallet emptyStore)) in
  run (scripted Sample.usual) (Sample.request Referral Sample.walletOtherCase) (start st)
  = (duplicateClaim Referral,
     mkWorld st [lookup Referral (JS.toLowerCase Sample.walletOtherCase) st]).
Proof.
  apply (C2_repeat_settlement_rejected Sample.cfg Sample.rt (scripted Sample.usual) Referral
           Sample.walletOtherCase (JS.JStr "sig1")).
  - discriminate.
  - reflexivity.
  - exists Sample.walletOtherCase. vm_compute. reflexivity.
  - vm_compute. reflexivity.
Defined.

(** C3, evaluation at the failing input.  The payout is sent and the wait
    for finality returns a status whose [err] is set: the transaction was
    finalized as failed.  The handler does not look at the status; it
    answers with success and the store holds a [Confirmed] record for the
    failed payout.  The same on both channels. *)
Theorem C3_failed_payout_recorded :
  (let '(resp, w) := Sample.outcomeOf Sample.failedOnChain Primary Sample.wallet emptyStore in
   isSuccess resp = true
   /\ lastEvent (filter isLedgerEvent (w_log w))
      = Some (EvConfirmTransaction "payoutSig1"
                (Resolved (Ledger.mkResult (Some "InstructionError"))))
   /\ map (fun d => (Claim.txSig d, Claim.status d)) (claims (w_store w))
      = [("payoutSig1", Confirmed)])
  /\
  (let '(resp, w) := Sample.outcomeOf Sample.failedOnChain Referral Sample.wallet emptyStore in
   isSuccess resp = true
   /\ lastEvent (filter isLedgerEvent (w_log w))
      = Some (EvConfirmTransaction "payoutSig1"
                (Resolved (Ledger.mkResult (Some "InstructionError"))))
   /\ map (fun d => (ReferralClaim.txSig d, ReferralClaim.status d))
          (referralClaims (w_store w))
      = [("payoutSig1", Confirmed)]).
Proof. vm_compute. repeat split. Qed.

(** C4.  For a digit string [H] and a decimal exponent [D] the amount in
    base units is [H] followed by [D] zeros read as an integer, which is the
    value of [H] times [10^D] over the unbounded integers, and writing it
    as a string and reading it back loses nothing; for every non-negative
    integer [n], converting its decimal text gives [n * 10^D].  Every run of
    a settlement handler keeps [amount = humanAmount * 10^decimals] on
    every record of the primary collection. *)
Theorem C4_base_units_exact (cfg : config) (rt : runtime) (env : environment)
    (ch : channel) (wallet proof : JS.jsval) (w w' : world) (resp : response)
    (H : string) (D : nat) (n : Z) :
  JS.isDigitString H = true ->
  0 <= n ->
  Forall amountConsistent (claims (w_store w)) ->
  run env (settlement cfg rt ch wallet proof) w = (resp, w') ->
  amountSmallest H D = JS.BigInt_ofString (H ++ zeros D)
  /\ amountSmallest H D = JS.BigInt_ofString H * 10 ^ Z.of_nat D
  /\ JS.BigInt_ofString (JS.BigInt_toString (amountSmallest H D))
     = amountSmallest H D
  /\ JS.isDigitString (JS.BigInt_toString n) = true
  /\ amountSmallest (JS.BigInt_toString n) D = n * 10 ^ Z.of_nat D
  /\ Forall amountConsistent (claims (w_store w')).
Proof.
  intros HH Hn Hinv Hrun.
  split; [apply amountSmallest_zeros|].
  split; [reflexivity|].
  split; [apply BigInt_roundtrip, amountSmallest_nonneg; exact HH|].
  split; [apply BigInt_toString_digits; exact Hn|].
  split.
  { unfold amountSmallest, JS.pow10. rewrite BigInt_roundtrip by exact Hn.
    reflexivity. }
  destruct ch; open_settlement Hrun; walk Hrun; creates;
    inversion Hrun; subst; clear Hrun; cbn [w_store claims]; try exact Hinv.
  apply Forall_snoc; [exact Hinv|]. apply stored_amount_consistent.
  bools. assumption.
Qed.

(** C4_base_units_exact for 40000 tokens at 6 decimals, for [10^12] tokens,
    and for the store after a successful claim. *)
Lemma C4_witness :
  amountSmallest "40000" 6 = JS.BigInt_ofString ("40000" ++ zeros 6)
  /\ amountSmallest "40000" 6 = JS.BigInt_ofString "40000" * 10 ^ Z.of_nat 6
  /\ JS.BigInt_ofString (JS.BigInt_toString (amountSmallest "40000" 6))
     = amountSmallest "40000" 6
  /\ JS.isDigitString (JS.BigInt_toString 1000000000000) = true
  /\ amountSmallest (JS.BigInt_toString 1000000000000) 6
     = 1000000000000 * 10 ^ Z.of_nat 6
  /\ Forall amountConsistent
       (claims (w_store (snd (Sample.outcomeOf Sample.usual Primary Sample.wallet emptyStore)))).
Proof.
  apply (C4_base_units_exact Sample.cfg Sample.rt (scripted Sample.usual) Primary
           (JS.JStr Sample.wallet) (JS.JStr "sig1") (start emptyStore)
           (snd (Sample.outcomeOf Sample.usual Primary Sample.wallet emptyStore))
           (fst (Sample.outcomeOf Sample.usual Primary Sample.wallet emptyStore))
           "40000" 6 1000000000000).
  - reflexivity.
  - lia.
  - constructor.
  - vm_compute. reflexivity.
Defined.

(** C5, counterexample.  An entitlement of 9007199255 tokens at 9 decimals
    is 9007199255000000000 base units, above [2^53].  The record stores
    that text, but the transfer instruction handed to the ledger carries
    [Number(amountSmallest)], which is 9007199255000000512. *)
Lemma C5_amount_rounded :
  let '(resp, w) := Sample.outcomeOf Sample.large Primary Sample.wallet emptyStore in
  amountSmallest "9007199255" 9 = 9007199255000000000
  /\ map Claim.amount (claims (w_store w)) = ["9007199255000000000"]
  /\ exists tx,
       In (EvSendTransaction tx (Resolved "payoutSig1")) (w_log w)
       /\ In (Ledger.Transfer ("ata:" ++ TREASURY Sample.cfg) ("ata:" ++ Sample.wallet)
                (TREASURY Sample.cfg) (JS.DInt 9007199255000000512))
             (Ledger.body tx).
Proof.
  vm_compute. split; [reflexivity|]. split; [reflexivity|].
  eexists. split.
  - do 7 right. left. reflexivity.
  - right. left. reflexivity.
Qed.

(** C5, as amended.  In every run of either channel, a transfer instruction
    of a submitted payout carries [Number(amountSmallest)] for the amount
    computed, as an unbounded integer, from the answer of the checker and
    the decimals of the mint; when that amount is at most [2^53] this is
    the amount itself. *)
Theorem C5_transfer_amount (cfg : config) (rt : runtime) (env : environment)
    (ch : channel) (wallet proof : JS.jsval) (st : store)
    (resp : response) (w' : world)
    (url mint : string) (r : fetchResponse) (eg : option eligibility)
    (mi : Ledger.mintInfo) (tx : Ledger.transaction) (o : outcome string)
    (src dst owner : string) (amt : JS.double) :
  run env (settlement cfg rt ch wallet proof) (start st) = (resp, w') ->
  In (EvFetch url (Resolved r)) (w_log w') ->
  json r = Resolved eg ->
  In (EvGetMint mint (Resolved mi)) (w_log w') ->
  In (EvSendTransaction tx o) (w_log w') ->
  In (Ledger.Transfer src dst owner amt) (Ledger.body tx) ->
  amt = JS.Number_ofBigInt
          (amountSmallest (JS.toText (entitlement ch eg)) (Ledger.decimals mi))
  /\ (amountSmallest (JS.toText (entitlement ch eg)) (Ledger.decimals mi)
      <= 2 ^ 53 ->
      amt = JS.DInt
              (amountSmallest (JS.toText (entitlement ch eg))
                 (Ledger.decimals mi))).
Proof.
  intros H Hf Hj Hm Hs Ht.
  destruct ch; open_settlement H; walk H; leaf H; pick; bools;
    cbn [entitlement] in *;
    apply transfer_of_payout in Ht; destruct Ht as (-> & _ & _);
    (split; [reflexivity|]); intros Hle;
    apply Number_exact; rewrite Z.abs_eq;
    try exact Hle; apply amountSmallest_nonneg; assumption.
Qed.

(** C5_transfer_amount for 40000 tokens at 6 decimals. *)
Lemma C5_witness :
  JS.DInt 40000000000
  = JS.DInt (amountSmallest
               (JS.toText (entitlement Primary
                  (Some (Sample.checkerDoc (JS.JStr "40000") (Sample.num JS.Positive "500")))))
               (Ledger.decimals (Ledger.mkMint 6))).
Proof.
  refine (proj2
    (C5_transfer_amount Sample.cfg Sample.rt (scripted Sample.usual) Primary
       (JS.JStr Sample.wallet) (JS.JStr "sig1") emptyStore
       (fst (Sample.outcomeOf Sample.usual Primary Sample.wallet emptyStore))
       (snd (Sample.outcomeOf Sample.usual Primary Sample.wallet emptyStore))
       (eligibilityUrl Sample.cfg Sample.wallet) (MEME_MINT Sample.cfg)
       (Sample.checkerResponse (JS.JStr "40000") (Sample.num JS.Positive "500"))
       (Some (Sample.checkerDoc (JS.JStr "40000") (Sample.num JS.Positive "500")))
       (Ledger.mkMint 6)
       (payoutTransaction Sample.cfg "blockhash1" ("ata:" ++ TREASURY Sample.cfg)
          ("ata:" ++ Sample.wallet) Sample.wallet None 40000000000)
       (Resolved "payoutSig1")
       ("ata:" ++ TREASURY Sample.cfg) ("ata:" ++ Sample.wallet) (TREASURY Sample.cfg)
       (JS.DInt 40000000000) _ _ _ _ _ _) _).
  - vm_compute. reflexivity.
  - found.
  - reflexivity.
  - found.
  - found.
  - found.
  - vm_compute. discriminate.
Defined.

(** C6.  For a request of [/claim/complete] that fetched a parsed
    transaction: the two checks of step 2 pass exactly when the transaction
    was found, did not fail ([meta] present with no [err]), has the wallet
    as its first account key and holds a native transfer of exactly the fee
    from the wallet to the fee collector; the handler goes on to the
    checker exactly in that case; and a transaction that was found and did
    not fail but is not such a payment is answered HTTP 400 with the
    fee-payment-invalid message, with nothing done after the fetch and
    nothing written. *)
Theorem C6_fee_verification (cfg : config) (rt : runtime) (env : environment)
    (wallet : string) (feeSig sig : JS.jsval) (st : store)
    (resp : response) (w' : world)
    (parsed : option Ledger.parsedTransaction) :
  run env (claim_complete cfg rt (mkCompleteBody (JS.JStr wallet) feeSig))
      (start st) = (resp, w') ->
  In (EvGetParsedTransaction sig (Resolved parsed)) (w_log w') ->
  (feeVerified cfg wallet parsed = true <-> feePaymentValid cfg wallet parsed)
  /\ (feePaymentValid cfg wallet parsed
      <-> exists o, In (EvFetch (eligibilityUrl cfg wallet) o) (w_log w'))
  /\ (forall tx,
        parsed = Some tx ->
        Ledger.meta tx = Some (Ledger.mkMeta None) ->
        ~ feePaymentValid cfg wallet parsed ->
        resp = fail 400 "Fee payment invalid (amount/to/from mismatch)"
        /\ w_store w' = st
        /\ lastEvent (w_log w')
           = Some (EvGetParsedTransaction sig (Resolved parsed))).
Proof.
  intros H Hp. split; [apply feeVerified_spec|].
  rewrite <- feeVerified_spec.
  unfold claim_complete, getEligibility in H.
  walk H; leaf H; pick; bools.
  all: split;
    [ split;
      [ intros Hf; fee_value Hf; try discriminate Hf;
        eexists; cbn [In]; eauto 20
      | intros [o Ho]; cbn [In] in Ho; pick; fee_goal; reflexivity ]
    | intros tx E Hm Hn; pick;
      try (exfalso; apply Hn, feeVerified_spec; fee_goal; reflexivity);
      try (apply notFoundOrFailed_spec in Hm; congruence);
      repeat split; reflexivity ].
Qed.

(** C6_fee_verification on a fee transfer that is one lamport short. *)
Lemma C6_witness :
  let parsed := Some (Sample.feeTx Sample.wallet (FEE_COLLECTOR Sample.cfg) 14999999) in
  let log := w_log (snd (Sample.outcomeOf Sample.underpaid Primary Sample.wallet emptyStore)) in
  (feeVerified Sample.cfg Sample.wallet parsed = true <-> feePaymentValid Sample.cfg Sample.wallet parsed)
  /\ (feePaymentValid Sample.cfg Sample.wallet parsed
      <-> exists o, In (EvFetch (eligibilityUrl Sample.cfg Sample.wallet) o) log)
  /\ (forall tx,
        parsed = Some tx ->
        Ledger.meta tx = Some (Ledger.mkMeta None) ->
        ~ feePaymentValid Sample.cfg Sample.wallet parsed ->
        fst (Sample.outcomeOf Sample.underpaid Primary Sample.wallet emptyStore)
        = fail 400 "Fee payment invalid (amount/to/from mismatch)"
        /\ w_store (snd (Sample.outcomeOf Sample.underpaid Primary Sample.wallet emptyStore))
           = emptyStore
        /\ lastEvent log
           = Some (EvGetParsedTransaction (JS.JStr "sig1") (Resolved parsed))).
Proof.
  apply (C6_fee_verification Sample.cfg Sample.rt (scripted Sample.underpaid) Sample.wallet
           (JS.JStr "sig1") (JS.JStr "sig1") emptyStore).
  - vm_compute. reflexivity.
  - found.
Defined.

(** C7.  In both channels, when the balance read from the treasury's token
    account is strictly below the required amount in base units, the
    request is answered with the treasury-insufficient error of the channel
    (HTTP 400 on the primary channel, 500 on the referral channel), the
    balance read is the last operation of the run, no transaction is
    submitted and the store is unchanged. *)
Theorem C7_treasury_guard (cfg : config) (rt : runtime) (env : environment)
    (ch : channel) (wallet proof : JS.jsval) (st : store)
    (resp : response) (w' : world)
    (url mint address : string) (r : fetchResponse) (eg : option eligibility)
    (mi : Ledger.mintInfo) (acct : Ledger.tokenAccount) :
  run env (settlement cfg rt ch wallet proof) (start st) = (resp, w') ->
  In (EvFetch url (Resolved r)) (w_log w') ->
  json r = Resolved eg ->
  In (EvGetMint mint (Resolved mi)) (w_log w') ->
  In (EvGetAccount address (Resolved acct)) (w_log w') ->
  Ledger.amount acct
    < amountSmallest (JS.toText (entitlement ch eg)) (Ledger.decimals mi) ->
  resp = insufficientTreasury ch
  /\ w_store w' = st
  /\ filter isSubmission (w_log w') = []
  /\ lastEvent (w_log w') = Some (EvGetAccount address (Resolved acct)).
Proof.
  intros H Hf Hj Hm Ha Hlt.
  destruct ch; open_settlement H; walk H; leaf H; pick; ltb_facts;
    cbn [entitlement] in *; try lia; repeat split; reflexivity.
Qed.

(** C7_treasury_guard on the referral channel with a treasury of 1000 base
    units. *)
Lemma C7_witness :
  fst (Sample.outcomeOf Sample.poor Referral Sample.wallet emptyStore) = insufficientTreasury Referral
  /\ w_store (snd (Sample.outcomeOf Sample.poor Referral Sample.wallet emptyStore)) = emptyStore
  /\ filter isSubmission (w_log (snd (Sample.outcomeOf Sample.poor Referral Sample.wallet emptyStore)))
     = []
  /\ lastEvent (w_log (snd (Sample.outcomeOf Sample.poor Referral Sample.wallet emptyStore)))
     = Some (EvGetAccount ("ata:" ++ TREASURY Sample.cfg)
               (Resolved (Ledger.mkAccount 1000))).
Proof.
  apply (C7_treasury_guard Sample.cfg Sample.rt (scripted Sample.poor) Referral
           (JS.JStr Sample.wallet) (JS.JStr "sig1") emptyStore
           (fst (Sample.outcomeOf Sample.poor Referral Sample.wallet emptyStore))
           (snd (Sample.outcomeOf Sample.poor Referral Sample.wallet emptyStore))
           (eligibilityUrl Sample.cfg Sample.wallet) (MEME_MINT Sample.cfg) ("ata:" ++ TREASURY Sample.cfg)
           (Sample.checkerResponse (JS.JStr "40000") (Sample.num JS.Positive "500"))
           (Some (Sample.checkerDoc (JS.JStr "40000") (Sample.num JS.Positive "500")))
           (Ledger.mkMint 6) (Ledger.mkAccount 1000)).
  - vm_compute. reflexivity.
  - found.
  - reflexivity.
  - found.
  - found.
  - vm_compute. reflexivity.
Defined.

(** C8, counterexample.  The payout is submitted and the wait for finality
    rejects with a timeout: the handler answers HTTP 500 with the message
    of the timeout, and the log holds nothing after the wait, in particular
    no query of the status of the transaction. *)
Lemma C8_no_requery :
  let '(resp, w) := Sample.outcomeOf Sample.timedOut Primary Sample.wallet emptyStore in
  resp = fail 500 "Transaction was not confirmed in 30.00 seconds"
  /\ List.length (filter isSubmission (w_log w)) = 1%nat
  /\ filter isStatusQuery (afterConfirm (w_log w)) = []
  /\ afterConfirm (w_log w) = [].
Proof. vm_compute. repeat split. Qed.

(** C8, as amended.  In both channels, when the wait for finality rejects,
    the request is answered HTTP 500 with the message of the rejection, the
    wait is the last operation of the run (the status of the transaction is
    not queried again) and no record is written. *)
Theorem C8_timeout_is_reported (cfg : config) (rt : runtime) (env : environment)
    (ch : channel) (wallet proof : JS.jsval) (st : store)
    (resp : response) (w' : world) (sig message : string) :
  run env (settlement cfg rt ch wallet proof) (start st) = (resp, w') ->
  In (EvConfirmTransaction sig (Rejected message)) (w_log w') ->
  resp = fail 500 message
  /\ afterConfirm (w_log w') = []
  /\ lastEvent (w_log w') = Some (EvConfirmTransaction sig (Rejected message))
  /\ w_store w' = st.
Proof.
  intros H Hc.
  destruct ch; open_settlement H; walk H; leaf H; pick;
    repeat split; reflexivity.
Qed.

(** C8_timeout_is_reported on the timeout of the counterexample. *)
Lemma C8_witness :
  fst (Sample.outcomeOf Sample.timedOut Primary Sample.wallet emptyStore)
  = fail 500 "Transaction was not confirmed in 30.00 seconds"
  /\ afterConfirm (w_log (snd (Sample.outcomeOf Sample.timedOut Primary Sample.wallet emptyStore))) = []
  /\ lastEvent (w_log (snd (Sample.outcomeOf Sample.timedOut Primary Sample.wallet emptyStore)))
     = Some (EvConfirmTransaction "payoutSig1"
               (Rejected "Transaction was not confirmed in 30.00 seconds"))
  /\ w_store (snd (Sample.outcomeOf Sample.timedOut Primary Sample.wallet emptyStore)) = emptyStore.
Proof.
  apply (C8_timeout_is_reported Sample.cfg Sample.rt (scripted Sample.timedOut) Primary
           (JS.JStr Sample.wallet) (JS.JStr "sig1") emptyStore).
  - vm_compute. reflexivity.
  - found.
Defined.

(** C9, counterexample.  The checker reports a referral bonus of zero: the
    request is answered HTTP 400 with the no-pending-bonus message, yet the
    ledger was read once, for the status of the proof signature, before the
    checker was asked. *)
Lemma C9_ledger_was_read :
  let '(resp, w) := Sample.outcomeOf Sample.noBonus Referral Sample.wallet emptyStore in
  resp = fail 400 "No pending referral bonus to claim."
  /\ filter isLedgerEvent (w_log w)
     = [EvGetSignatureStatus (JS.JStr "sig1") Sample.finalized]
  /\ filter isLedgerEvent (w_log w) <> [].
Proof. vm_compute. repeat split. discriminate. Qed.

(** C9, as amended.  On [/claim/referral], when the checker answers with a
    referral bonus that is zero or negative, the request is answered HTTP
    400 with the no-pending-bonus message, the fetch is the last operation
    of the run, the store is unchanged, and the only ledger operation of the
    run is the read of the status of the proof signature that precedes the
    call of the checker (which reported it finalized). *)
Theorem C9_no_pending_bonus (cfg : config) (rt : runtime) (env : environment)
    (wallet txSig : JS.jsval) (st : store) (resp : response) (w' : world)
    (url : string) (r : fetchResponse) (eg : option eligibility) :
  run env (claim_referral cfg rt (mkReferralBody wallet txSig)) (start st)
  = (resp, w') ->
  In (EvFetch url (Resolved r)) (w_log w') ->
  ok r = true ->
  json r = Resolved eg ->
  zeroOrNegative rt (field referralBonus eg) = true ->
  resp = fail 400 "No pending referral bonus to claim."
  /\ w_store w' = st
  /\ lastEvent (w_log w') = Some (EvFetch url (Resolved r))
  /\ exists value,
       isFinalized value = true
       /\ filter isLedgerEvent (w_log w')
          = [EvGetSignatureStatus txSig (Resolved value)].
Proof.
  intros H Hf Hok Hj Hz.
  unfold claim_referral, getEligibility in H. walk H; leaf H; pick; bools;
    try congruence.
  all: try (repeat split; try reflexivity; eexists; split; [eassumption | reflexivity]).
  all: exfalso;
    match goal with
    | E : JS.leZero _ ?v = false |- _ =>
        destruct v; cbn [zeroOrNegative JS.leZero] in *; congruence
    end.
Qed.

(** C9_no_pending_bonus on a referral bonus of zero. *)
Lemma C9_witness :
  fst (Sample.outcomeOf Sample.noBonus Referral Sample.wallet emptyStore)
  = fail 400 "No pending referral bonus to claim."
  /\ w_store (snd (Sample.outcomeOf Sample.noBonus Referral Sample.wallet emptyStore)) = emptyStore
  /\ lastEvent (w_log (snd (Sample.outcomeOf Sample.noBonus Referral Sample.wallet emptyStore)))
     = Some (EvFetch (eligibilityUrl Sample.cfg Sample.wallet)
               (Resolved (Sample.checkerResponse (JS.JStr "40000") (Sample.num JS.Zero "0"))))
  /\ exists value,
       isFinalized value = true
       /\ filter isLedgerEvent
            (w_log (snd (Sample.outcomeOf Sample.noBonus Referral Sample.wallet emptyStore)))
          = [EvGetSignatureStatus (JS.JStr "sig1") (Resolved value)].
Proof.
  apply (C9_no_pending_bonus Sample.cfg Sample.rt (scripted Sample.noBonus)
           (JS.JStr Sample.wallet) (JS.JStr "sig1") emptyStore
           (fst (Sample.outcomeOf Sample.noBonus Referral Sample.wallet emptyStore))
           (snd (Sample.outcomeOf Sample.noBonus Referral Sample.wallet emptyStore))
           (eligibilityUrl Sample.cfg Sample.wallet)
           (Sample.checkerResponse (JS.JStr "40000") (Sample.num JS.Zero "0"))
           (Some (Sample.checkerDoc (JS.JStr "40000") (Sample.num JS.Zero "0")))).
  - vm_compute. reflexivity.
  - found.
  - reflexivity.
  - reflexivity.
  - reflexivity.
Defined.

(** C10.  For a request with wallet text [w] in either channel: every
    lookup and every insert of the run is keyed by the lowercase form of
    [w]; once the request is recorded, a well-formed request whose wallet
    has the same lowercase form is answered as already claimed at its
    lookup; the fee check passes only when the first account key of the fee
    transaction and the source of the transfer are [w] itself; and when the
    first account key of the fetched fee transaction differs from [w] in
    any character, the fee check fails, the request is answered with an
    error, nothing follows the fetch and nothing is written. *)
Theorem C10_lowercase_key_exact_case_fee (cfg : config) (rt : runtime)
    (env env2 : environment) (ch : channel) (w w2 : string)
    (proof proof2 : JS.jsval) (st : store) (resp : response) (w' : world) :
  run env (settlement cfg rt ch (JS.JStr w) proof) (start st) = (resp, w') ->
  JS.toLowerCase w2 = JS.toLowerCase w ->
  w2 <> EmptyString ->
  JS.truthy proof2 = true ->
  lookupReachable rt ch w2 ->
  (forall e key,
      In e (w_log w') -> recordKey e = Some key -> key = JS.toLowerCase w)
  /\ (isSuccess resp = true ->
      run env2 (settlement cfg rt ch (JS.JStr w2) proof2) (start (w_store w'))
      = (duplicateClaim ch,
         mkWorld (w_store w') [lookup ch (JS.toLowerCase w) (w_store w')]))
  /\ (forall tx,
        feePaid cfg w tx = true ->
        hd_error (Ledger.accountKeys tx) = Some w
        /\ exists ix, In ix (Ledger.instructions tx) /\ isFeeTransfer cfg w ix)
  /\ (forall sig tx onLedger,
        ch = Primary ->
        In (EvGetParsedTransaction sig (Resolved (Some tx))) (w_log w') ->
        hd_error (Ledger.accountKeys tx) = Some onLedger ->
        onLedger <> w ->
        feePaid cfg w tx = false
        /\ isSuccess resp = false
        /\ w_store w' = st
        /\ lastEvent (w_log w')
           = Some (EvGetParsedTransaction sig (Resolved (Some tx)))).
Proof.
  intros H Hk Hw2 Hp2 Hr2.
  split; [intros e key; apply (keys_are_lowercase _ _ _ _ _ _ _ _ _ e key H)|].
  split.
  { intros Hs. rewrite <- Hk.
    apply (repeat_rejected cfg rt env2 ch w2 proof2 (start (w_store w')));
      try assumption.
    cbn [w_store start]. rewrite Hk.
    exact (success_settles _ _ _ _ _ _ _ _ _ H Hs). }
  split; [intros tx; apply feePaid_spec|].
  intros sig tx onLedger -> Hin Hhd Hne.
  assert (Hf : feePaid cfg w tx = false).
  { destruct (feePaid cfg w tx) eqn:E; [|reflexivity].
    apply feePaid_spec in E. destruct E as [E _]. congruence. }
  split; [exact Hf|].
  exact (other_signer_rejected _ _ _ _ _ _ _ _ _ _ H Hin Hf).
Qed.

(** C10_lowercase_key_exact_case_fee: a wallet is recorded and asked for
    again in another case. *)
Lemma C10_witness :
  let st' := w_store (snd (Sample.outcomeOf Sample.usual Primary Sample.wallet emptyStore)) in
  run (scripted Sample.usual) (Sample.request Primary Sample.walletOtherCase) (start st')
  = (duplicateClaim Primary,
     mkWorld st' [lookup Primary (JS.toLowerCase Sample.wallet) st']).
Proof.
  refine (proj1 (proj2
    (C10_lowercase_key_exact_case_fee Sample.cfg Sample.rt (scripted Sample.usual) (scripted Sample.usual)
       Primary Sample.wallet Sample.walletOtherCase (JS.JStr "sig1") (JS.JStr "sig1")
       emptyStore
       (fst (Sample.outcomeOf Sample.usual Primary Sample.wallet emptyStore))
       (snd (Sample.outcomeOf Sample.usual Primary Sample.wallet emptyStore))
       _ _ _ _ _)) _).
  - vm_compute. reflexivity.
  - reflexivity.
  - discriminate.
  - reflexivity.
  - exact I.
  - reflexivity.
Defined.


(** * Further properties *)

(** What the handlers do beyond the claims: every way a request can end,
    what has been established when a payout is sent, the invariants of the
    store, and the fee step [/claim/init-fee] together with its
    verification. *)

Lemma truthy_text_inv (s : string) :
  JS.truthy (JS.JStr s) = true -> s <> EmptyString.
Proof. cbn [JS.truthy]. intros H E. subst s. discriminate H. Qed.

(** The log of a run only grows. *)
Lemma run_extends (env : environment) (p : prog) :
  forall (w w' : world) (r : response),
    run env p w = (r, w') -> exists more, w_log w' = (w_log w ++ more)%list.
Proof.
  induction p as [r0|A c k IH]; cbn [run]; intros w w' r H.
  - inversion H; subst. exists []. symmetry. apply app_nil_r.
  - destruct (perform env (w_log w) (w_store w) c) as [o st'].
    destruct (IH o _ _ _ H) as [more Hm]. cbn [w_log] in Hm.
    exists (observe c o :: more). rewrite Hm, <- app_assoc. reflexivity.
Qed.

(** A handler that starts with an operation logs it first. *)
Lemma run_first (env : environment) (A : Type) (c : call A)
    (k : outcome A -> prog) (st : store) (r : response) (w' : world) :
  run env (Call c k) (start st) = (r, w') ->
  hd_error (w_log w') = Some (observe c (fst (perform env [] st c))).
Proof.
  cbn [run start w_log w_store]. intros H.
  destruct (perform env [] st c) as [o st'].
  destruct (run_extends _ _ _ _ _ H) as [more Hm]. cbn [w_log app] in Hm.
  rewrite Hm. reflexivity.
Qed.

(** X1, malformed_request_does_nothing: a settlement request either
    reaches the lookup of the lowercased wallet as its first operation,
    which takes a non-empty wallet text, a truthy fee or proof signature
    and, on /claim/referral, a wallet that new PublicKey accepts; or it
    performs no operation at all, leaves the store as it was and answers
    400 with the missing-fields message (a falsy wallet or signature), 500
    with the TypeError message (a truthy wallet that is not a string), or
    500 with the message of new PublicKey (/claim/referral only). *)
Theorem malformed_request_does_nothing (cfg : config) (rt : runtime)
    (env : environment) (ch : channel) (wallet proof : JS.jsval) (st : store)
    (resp : response) (w' : world) :
  run env (settlement cfg rt ch wallet proof) (start st) = (resp, w') ->
  (exists text,
      wallet = JS.JStr text /\ text <> EmptyString
      /\ JS.truthy proof = true /\ lookupReachable rt ch text
      /\ hd_error (w_log w') = Some (lookup ch (JS.toLowerCase text) st))
  \/ (w_log w' = [] /\ w_store w' = st
      /\ (((JS.truthy wallet = false \/ JS.truthy proof = false)
           /\ resp = missingFields ch)
          \/ (JS.truthy wallet = true /\ JS.truthy proof = true
              /\ (forall text, wallet <> JS.JStr text)
              /\ resp = fail 500 "wallet.toLowerCase is not a function")
          \/ (exists text m,
                ch = Referral /\ wallet = JS.JStr text
                /\ toPk rt text = Rejected m /\ resp = fail 500 m))).
Proof.
  intros H.
  destruct (JS.truthy wallet) eqn:Hw; [destruct (JS.truthy proof) eqn:Hp|].
  - destruct wallet as [| |b|n|text].
    1,2: discriminate Hw.
    1,2: right; destruct ch;
         unfold settlement, claim_complete, claim_referral in H;
         cbn [cb_wallet cb_feeSig rb_wallet rb_txSig] in H;
         rewrite Hw, Hp in H; cbn in H;
         inversion H; subst; (split; [reflexivity|]); (split; [reflexivity|]);
         right; left; repeat split; try assumption; discriminate.
    pose proof (truthy_text_inv _ Hw) as Hne.
    destruct ch.
    + left. exists text. repeat split; try assumption.
      unfold settlement, claim_complete in H.
      cbn [cb_wallet cb_feeSig] in H. rewrite Hw, Hp in H.
      cbn [negb orb] in H. unfold await in H.
      apply run_first in H. exact H.
    + unfold settlement, claim_referral in H.
      cbn [rb_wallet rb_txSig] in H. rewrite Hw, Hp in H.
      cbn [negb orb] in H.
      destruct (toPk rt text) as [pk|m] eqn:Hpk; unfold attempt in H.
      * left. exists text. repeat split; try assumption.
        { exists pk. exact Hpk. }
        unfold await in H. apply run_first in H. exact H.
      * right. cbn in H. inversion H; subst.
        split; [reflexivity|]. split; [reflexivity|].
        right. right. exists text, m. auto.
  - right. destruct ch; unfold settlement, claim_complete, claim_referral in H;
      cbn [cb_wallet cb_feeSig rb_wallet rb_txSig] in H;
      rewrite Hw, Hp in H; cbn in H; inversion H; subst;
      (split; [reflexivity|]); (split; [reflexivity|]); left; auto.
  - right. destruct ch; unfold settlement, claim_complete, claim_referral in H;
      cbn [cb_wallet cb_feeSig rb_wallet rb_txSig] in H;
      rewrite Hw in H; cbn in H; inversion H; subst;
      (split; [reflexivity|]); (split; [reflexivity|]); left; auto.
Qed.

(** X1: a body without a wallet performs no operation. *)
Lemma malformed_request_witness :
  w_log (snd (run (scripted Sample.usual)
                (settlement Sample.cfg Sample.rt Referral JS.JNull
                   (JS.JStr "sig1"))
                (start emptyStore))) = [].
Proof.
  destruct (malformed_request_does_nothing Sample.cfg Sample.rt
              (scripted Sample.usual) Referral JS.JNull (JS.JStr "sig1")
              emptyStore _ _ eq_refl)
    as [(text & E & _)|(Hl & _)]; [discriminate E | exact Hl].
Defined.

(** X2, fee_transaction_missing_or_failed: on /claim/complete, when
    getParsedTransaction resolves to null, to a transaction without meta
    or to one whose meta holds an error, the answer is 400 Fee tx not
    found or failed, that read is the last operation of the request and
    the store is unchanged. *)
Theorem fee_transaction_missing_or_failed (cfg : config) (rt : runtime)
    (env : environment) (wallet feeSig sig : JS.jsval) (st : store)
    (resp : response) (w' : world)
    (parsed : option Ledger.parsedTransaction) :
  run env (settlement cfg rt Primary wallet feeSig) (start st) = (resp, w') ->
  In (EvGetParsedTransaction sig (Resolved parsed)) (w_log w') ->
  notFoundOrFailed parsed = true ->
  resp = fail 400 "Fee tx not found or failed"
  /\ w_store w' = st
  /\ lastEvent (w_log w') = Some (EvGetParsedTransaction sig (Resolved parsed)).
Proof.
  intros H Hp Hn.
  open_settlement H; walk H; leaf H; pick; bools; try congruence;
    repeat split; reflexivity.
Qed.

(** X2: the ledger does not know the fee signature. *)
Lemma fee_transaction_missing_witness :
  fst (Sample.outcomeOf Cases.notFound Primary Sample.wallet emptyStore)
  = fail 400 "Fee tx not found or failed".
Proof.
  refine (proj1 (fee_transaction_missing_or_failed Sample.cfg Sample.rt
            (scripted Cases.notFound) (JS.JStr Sample.wallet) (JS.JStr "sig1")
            (JS.JStr "sig1") emptyStore _ _ None _ _ _)).
  - vm_compute. reflexivity.
  - found.
  - reflexivity.
Defined.

(** X3, proof_not_finalized: on /claim/referral, when getSignatureStatus
    resolves to a value that is null or whose confirmationStatus is not
    finalized, the answer is 400 Transaction is not confirmed., that read
    is the last operation of the request and the store is unchanged. *)
Theorem proof_not_finalized (cfg : config) (rt : runtime)
    (env : environment) (wallet txSig sig : JS.jsval) (st : store)
    (resp : response) (w' : world)
    (value : option Ledger.signatureStatus) :
  run env (settlement cfg rt Referral wallet txSig) (start st) = (resp, w') ->
  In (EvGetSignatureStatus sig (Resolved value)) (w_log w') ->
  isFinalized value = false ->
  resp = fail 400 "Transaction is not confirmed."
  /\ w_store w' = st
  /\ lastEvent (w_log w') = Some (EvGetSignatureStatus sig (Resolved value)).
Proof.
  intros H Hp Hn.
  open_settlement H; walk H; leaf H; pick; bools; try congruence;
    repeat split; reflexivity.
Qed.

(** X3: the proof transaction is confirmed but not finalized. *)
Lemma proof_not_finalized_witness :
  fst (Sample.outcomeOf Cases.unconfirmed Referral Sample.wallet emptyStore)
  = fail 400 "Transaction is not confirmed.".
Proof.
  refine (proj1 (proof_not_finalized Sample.cfg Sample.rt
            (scripted Cases.unconfirmed) (JS.JStr Sample.wallet)
            (JS.JStr "sig1") (JS.JStr "sig1") emptyStore _ _
            (Some (Ledger.mkStatus (Some "confirmed"))) _ _ _)).
  - vm_compute. reflexivity.
  - found.
  - reflexivity.
Defined.

(** X4, not_eligible: on /claim/complete, when the checker answers with a
    document whose eligible or finalTotal field is missing or falsy, the
    answer is 403 Not eligible, the fetch is the last operation and the
    store is unchanged. *)
Theorem not_eligible (cfg : config) (rt : runtime)
    (env : environment) (wallet feeSig : JS.jsval) (st : store)
    (resp : response) (w' : world)
    (url : string) (r : fetchResponse) (eg : option eligibility) :
  run env (settlement cfg rt Primary wallet feeSig) (start st) = (resp, w') ->
  In (EvFetch url (Resolved r)) (w_log w') ->
  ok r = true ->
  json r = Resolved eg ->
  JS.truthy (field eligible eg) = false
  \/ JS.truthy (field finalTotal eg) = false ->
  resp = fail 403 "Not eligible"
  /\ w_store w' = st
  /\ lastEvent (w_log w') = Some (EvFetch url (Resolved r)).
Proof.
  intros H Hf Hok Hj Hn.
  open_settlement H; walk H; leaf H; pick; bools; try congruence;
    try (destruct Hn; congruence); repeat split; reflexivity.
Qed.

(** X4: the checker says the wallet is not eligible. *)
Lemma not_eligible_witness :
  fst (Sample.outcomeOf Cases.ineligible Primary Sample.wallet emptyStore)
  = fail 403 "Not eligible".
Proof.
  refine (proj1 (not_eligible Sample.cfg Sample.rt
            (scripted Cases.ineligible) (JS.JStr Sample.wallet)
            (JS.JStr "sig1") emptyStore _ _
            (eligibilityUrl Sample.cfg Sample.wallet) Cases.refusal _ _ _
            eq_refl eq_refl _)).
  - vm_compute. reflexivity.
  - found.
  - left. reflexivity.
Defined.

(** X5, checker_http_failure: on both channels, a checker response whose
    ok flag is false turns into the answer 500 with the text Checker
    followed by the HTTP status; the fetch is the last operation (the body
    is not read, the ledger is not asked again) and the store is
    unchanged. *)
Theorem checker_http_failure (cfg : config) (rt : runtime)
    (env : environment) (ch : channel) (wallet proof : JS.jsval) (st : store)
    (resp : response) (w' : world) (url : string) (r : fetchResponse) :
  run env (settlement cfg rt ch wallet proof) (start st) = (resp, w') ->
  In (EvFetch url (Resolved r)) (w_log w') ->
  ok r = false ->
  resp = fail 500 ("Checker " ++ JS.num_text (httpStatus r))
  /\ w_store w' = st
  /\ lastEvent (w_log w') = Some (EvFetch url (Resolved r)).
Proof.
  intros H Hf Hc.
  destruct ch; open_settlement H; walk H; leaf H; pick; bools;
    try congruence; repeat split; reflexivity.
Qed.

(** X5: the checker answers 503. *)
Lemma checker_http_failure_witness :
  fst (Sample.outcomeOf Cases.checkerDown Referral Sample.wallet emptyStore)
  = fail 500 "Checker 503".
Proof.
  refine (proj1 (checker_http_failure Sample.cfg Sample.rt
            (scripted Cases.checkerDown) Referral (JS.JStr Sample.wallet)
            (JS.JStr "sig1") emptyStore _ _
            (eligibilityUrl Sample.cfg Sample.wallet) Cases.unavailable
            _ _ eq_refl)).
  - vm_compute. reflexivity.
  - found.
Defined.





Lemma unsettled (ch : channel) (key : string) (st : store) :
  match ch with
  | Primary => Claim_findOne key st = None
  | Referral => ReferralClaim_findOne key st = None
  end -> settled ch key st = false.
Proof. destruct ch; unfold settled; intros ->; reflexivity. Qed.

Ltac listed := cbn [In]; repeat first [left; reflexivity | right].

(** X8, payout_only_after_all_checks: whenever a request calls
    sendTransaction, every check before it has passed in that same
    request: the wallet is a string without a record in the store the
    request started from, the fee payment was verified (/claim/complete)
    or the proof is finalized (/claim/referral), the checker answered ok
    with a truthy, all-digit entitlement, the treasury balance read is at
    least the amount, and the submitted transaction is the payout built
    from the values read in that request. *)
Theorem payout_only_after_all_checks (cfg : config) (rt : runtime)
    (env : environment) (ch : channel) (wallet proof : JS.jsval) (st : store)
    (resp : response) (w' : world) (tx : Ledger.transaction)
    (o : outcome string) :
  run env (settlement cfg rt ch wallet proof) (start st) = (resp, w') ->
  In (EvSendTransaction tx o) (w_log w') ->
  exists text url r eg mint mi treasuryATA acct userPk userATA info blockhash,
    wallet = JS.JStr text
    /\ settled ch (JS.toLowerCase text) st = false
    /\ match ch with
       | Primary =>
           exists ptx,
             In (EvGetParsedTransaction proof (Resolved (Some ptx))) (w_log w')
             /\ feeVerified cfg text (Some ptx) = true
       | Referral =>
           exists value,
             In (EvGetSignatureStatus proof (Resolved value)) (w_log w')
             /\ isFinalized value = true
       end
    /\ In (EvFetch url (Resolved r)) (w_log w')
    /\ ok r = true
    /\ json r = Resolved eg
    /\ JS.truthy (entitlement ch eg) = true
    /\ JS.isDigitString (JS.toText (entitlement ch eg)) = true
    /\ In (EvGetMint mint (Resolved mi)) (w_log w')
    /\ In (EvGetAccount treasuryATA (Resolved acct)) (w_log w')
    /\ amountSmallest (JS.toText (entitlement ch eg)) (Ledger.decimals mi)
       <= Ledger.amount acct
    /\ toPk rt text = Resolved userPk
    /\ getAssociatedTokenAddressSync rt (MEME_MINT cfg) userPk = Resolved userATA
    /\ In (EvGetAccountInfo userATA (Resolved info)) (w_log w')
    /\ In (EvGetLatestBlockhash (Resolved blockhash)) (w_log w')
    /\ tx = payoutTransaction cfg blockhash treasuryATA userATA userPk info
              (amountSmallest (JS.toText (entitlement ch eg))
                 (Ledger.decimals mi)).
Proof.
  intros H Hs.
  destruct ch; open_settlement H; walk H; leaf H; pick; bools; ltb_facts;
    cbn [entitlement];
    do 12 eexists;
    (split; [reflexivity|]);
    (split; [apply unsettled; eassumption|]);
    (split; [eexists; split; [listed | first [eassumption |
               unfold feeVerified; apply andb_true_intro; split;
               [apply negb_true_iff; eassumption | eassumption]]]|]);
    (split; [listed|]);
    (split; [eassumption|]);
    (split; [eassumption|]);
    (split; [eassumption|]);
    (split; [eassumption|]);
    (split; [listed|]);
    (split; [listed|]);
    (split; [eassumption|]);
    (split; [eassumption|]);
    (split; [eassumption|]);
    (split; [listed|]);
    (split; [listed|]);
    reflexivity.
Qed.

(** X8: the usual successful request. *)
Lemma payout_only_after_all_checks_witness :
  exists text,
    JS.JStr Sample.wallet = JS.JStr text
    /\ settled Primary (JS.toLowerCase text) emptyStore = false.
Proof.
  destruct (payout_only_after_all_checks Sample.cfg Sample.rt
              (scripted Sample.usual) Primary (JS.JStr Sample.wallet)
              (JS.JStr "sig1") emptyStore
              (fst (Sample.outcomeOf Sample.usual Primary Sample.wallet emptyStore))
              (snd (Sample.outcomeOf Sample.usual Primary Sample.wallet emptyStore))
              (payoutTransaction Sample.cfg "blockhash1"
                 ("ata:" ++ TREASURY Sample.cfg) ("ata:" ++ Sample.wallet)
                 Sample.wallet None 40000000000)
              (Resolved "payoutSig1"))
    as (text & _ & _ & _ & _ & _ & _ & _ & _ & _ & _ & _ & E & Hs & _).
  - vm_compute. reflexivity.
  - found.
  - exists text. split; assumption.
Defined.

Ltac creates_full :=
  repeat match goal with
  | H : Claim_create _ _ = (_, _) |- _ =>
      apply Claim_create_inv in H;
      destruct H as [(? & ? & ?)|(? & ? & ?)]; try discriminate; subst
  | H : ReferralClaim_create _ _ = (_, _) |- _ =>
      apply ReferralClaim_create_inv in H;
      destruct H as [([? ?] & ?)|(? & ? & ?)]; try discriminate; subst
  end.

(** X10, success_means_paid_and_recorded: an ok answer is given only after
    the payout was sent, its confirmation returned and the record was
    inserted; the answer carries the signature sendTransaction returned
    and the amount in the checker's words; the store is the old store with
    this one record appended, so the wallet counts as settled from then
    on. *)
Theorem success_means_paid_and_recorded (cfg : config) (rt : runtime)
    (env : environment) (ch : channel) (wallet proof : JS.jsval) (st : store)
    (resp : response) (w' : world) :
  run env (settlement cfg rt ch wallet proof) (start st) = (resp, w') ->
  isSuccess resp = true ->
  exists text url r eg mint mi tx sig res,
    wallet = JS.JStr text
    /\ In (EvFetch url (Resolved r)) (w_log w')
    /\ json r = Resolved eg
    /\ In (EvGetMint mint (Resolved mi)) (w_log w')
    /\ In (EvSendTransaction tx (Resolved sig)) (w_log w')
    /\ In (EvConfirmTransaction sig (Resolved res)) (w_log w')
    /\ resp = settledJson ch sig (JS.toText (entitlement ch eg))
                (Ledger.decimals mi)
    /\ w_store w' = recordedStore ch st text eg mi sig proof
    /\ settled ch (JS.toLowerCase text) (w_store w') = true.
Proof.
  intros H Hs.
  pose proof H as Hrun.
  destruct ch; open_settlement H; walk H; creates_full; leaf H;
    cbn [isSuccess sent fail] in Hs; try discriminate Hs;
    do 9 eexists;
    (split; [reflexivity|]);
    (split; [listed|]);
    (split; [eassumption|]);
    (split; [listed|]);
    (split; [listed|]);
    (split; [listed|]);
    (split; [reflexivity|]);
    (split; [reflexivity|]);
    exact (success_settles _ _ _ _ _ _ _ _ _ Hrun eq_refl).
Qed.

(** X10: the usual successful request. *)
Lemma success_means_recorded_witness :
  exists text eg mi sig,
    Cases.afterClaim
    = recordedStore Primary emptyStore text eg mi sig (JS.JStr "sig1").
Proof.
  destruct (success_means_paid_and_recorded Sample.cfg Sample.rt
              (scripted Sample.usual) Primary (JS.JStr Sample.wallet)
              (JS.JStr "sig1") emptyStore
              (fst (Sample.outcomeOf Sample.usual Primary Sample.wallet emptyStore))
              (snd (Sample.outcomeOf Sample.usual Primary Sample.wallet emptyStore)))
    as (text & _ & _ & eg & _ & mi & _ & sig & _ & _ & _ & _ & _ & _ & _ & _
        & Hst & _).
  - vm_compute. reflexivity.
  - reflexivity.
  - exists text, eg, mi, sig. exact Hst.
Defined.

(** X11, one_request_pays_at_most_once: one request submits at most one
    transaction, inserts at most one record, never inserts without having
    submitted, and performs at most ten operations in all. *)
Theorem one_request_pays_at_most_once (cfg : config) (rt : runtime)
    (env : environment) (ch : channel) (wallet proof : JS.jsval) (st : store)
    (resp : response) (w' : world) :
  run env (settlement cfg rt ch wallet proof) (start st) = (resp, w') ->
  (List.length (filter isSubmission (w_log w')) <= 1)%nat
  /\ (List.length (filter isInsert (w_log w')) <= 1)%nat
  /\ (List.length (filter isInsert (w_log w'))
      <= List.length (filter isSubmission (w_log w')))%nat
  /\ (List.length (w_log w') <= 10)%nat.
Proof.
  intros H.
  destruct ch; open_settlement H; walk H; leaf H;
    cbn [filter isSubmission isInsert List.length]; repeat split; lia.
Qed.

(** X11: the usual successful request. *)
Lemma one_request_pays_at_most_once_witness :
  (List.length (filter isSubmission
     (w_log (snd (Sample.outcomeOf Sample.usual Primary Sample.wallet
                    emptyStore)))) <= 1)%nat.
Proof.
  refine (proj1 (one_request_pays_at_most_once Sample.cfg Sample.rt
            (scripted Sample.usual) Primary (JS.JStr Sample.wallet)
            (JS.JStr "sig1") emptyStore _ _ _)).
  vm_compute. reflexivity.
Defined.

(** X12, channels_do_not_touch_each_other: a request on one channel leaves
    the other channel's collection as it is, and either leaves its own
    collection as it is or appends a single record; no record is ever
    changed or removed. *)
Theorem channels_do_not_touch_each_other (cfg : config) (rt : runtime)
    (env : environment) (ch : channel) (wallet proof : JS.jsval)
    (w w' : world) (resp : response) :
  run env (settlement cfg rt ch wallet proof) w = (resp, w') ->
  match ch with
  | Primary =>
      referralClaims (w_store w') = referralClaims (w_store w)
      /\ (claims (w_store w') = claims (w_store w)
          \/ exists doc,
               claims (w_store w') = (claims (w_store w) ++ [doc])%list)
  | Referral =>
      claims (w_store w') = claims (w_store w)
      /\ (referralClaims (w_store w') = referralClaims (w_store w)
          \/ exists doc,
               referralClaims (w_store w')
               = (referralClaims (w_store w) ++ [doc])%list)
  end.
Proof.
  intros H.
  destruct ch; open_settlement H; walk H; creates;
    inversion H; subst; clear H; cbn [w_store claims referralClaims];
    (split; [reflexivity|]); first [left; reflexivity | right; eexists; reflexivity].
Qed.

(** X12: a successful /claim/complete leaves the referral collection
    empty. *)
Lemma channels_do_not_touch_witness :
  referralClaims Cases.afterClaim = referralClaims emptyStore.
Proof.
  refine (proj1 (channels_do_not_touch_each_other Sample.cfg Sample.rt
            (scripted Sample.usual) Primary (JS.JStr Sample.wallet)
            (JS.JStr "sig1") (start emptyStore) _ _ _)).
  vm_compute. reflexivity.
Defined.

(** X9, payout_shape: every submitted transaction has the treasury as fee
    payer and consists of one token transfer from the treasury's token
    account to the requesting wallet's token account with the treasury as
    owner, preceded by a create-account instruction (treasury pays)
    exactly when getAccountInfo found no account for the wallet. *)
Theorem payout_shape (cfg : config) (rt : runtime)
    (env : environment) (ch : channel) (wallet proof : JS.jsval) (st : store)
    (resp : response) (w' : world) (tx : Ledger.transaction)
    (o : outcome string) :
  run env (settlement cfg rt ch wallet proof) (start st) = (resp, w') ->
  In (EvSendTransaction tx o) (w_log w') ->
  exists text userPk userATA info treasuryATA amount,
    wallet = JS.JStr text
    /\ toPk rt text = Resolved userPk
    /\ getAssociatedTokenAddressSync rt (MEME_MINT cfg) userPk = Resolved userATA
    /\ getAssociatedTokenAddressSync rt (MEME_MINT cfg) (TREASURY cfg)
       = Resolved treasuryATA
    /\ In (EvGetAccountInfo userATA (Resolved info)) (w_log w')
    /\ Ledger.feePayer tx = TREASURY cfg
    /\ Ledger.body tx
       = (match info with
          | None => [Ledger.CreateAssociatedTokenAccount (TREASURY cfg) userATA
                       userPk (MEME_MINT cfg)]
          | Some _ => []
          end
          ++ [Ledger.Transfer treasuryATA userATA (TREASURY cfg) amount])%list.
Proof.
  intros H Hs.
  destruct ch; open_settlement H; walk H; leaf H; pick;
    do 6 eexists;
    (split; [reflexivity|]);
    (split; [eassumption|]);
    (split; [eassumption|]);
    (split; [first [eassumption | reflexivity]|]);
    (split; [listed|]);
    match goal with
    | |- context [payoutTransaction _ _ _ _ _ ?i _] => destruct i
    end; split; reflexivity.
Qed.

(** X9: the usual successful referral request. *)
Lemma payout_shape_witness :
  exists text userPk,
    JS.JStr Sample.wallet = JS.JStr text
    /\ toPk Sample.rt text = Resolved userPk.
Proof.
  destruct (payout_shape Sample.cfg Sample.rt
              (scripted Sample.usual) Referral (JS.JStr Sample.wallet)
              (JS.JStr "sig1") emptyStore
              (fst (Sample.outcomeOf Sample.usual Referral Sample.wallet emptyStore))
              (snd (Sample.outcomeOf Sample.usual Referral Sample.wallet emptyStore))
              (payoutTransaction Sample.cfg "blockhash1"
                 ("ata:" ++ TREASURY Sample.cfg) ("ata:" ++ Sample.wallet)
                 Sample.wallet None 500000000)
              (Resolved "payoutSig1"))
    as (text & userPk & _ & _ & _ & _ & E & Hpk & _).
  - vm_compute. reflexivity.
  - found.
  - exists text, userPk. split; assumption.
Defined.

Lemma lowerChar_idempotent (c : ascii) :
  JS.lowerChar (JS.lowerChar c) = JS.lowerChar c.
Proof. destruct c as [[] [] [] [] [] [] [] []]; reflexivity. Qed.

Lemma toLowerCase_idempotent (s : string) :
  JS.toLowerCase (JS.toLowerCase s) = JS.toLowerCase s.
Proof.
  induction s as [|c s IH]; cbn [JS.toLowerCase]; [reflexivity|].
  rewrite lowerChar_idempotent, IH. reflexivity.
Qed.

Ltac tidy_step :=
  match goal with
  | |- tidy (Respond _) => apply tidy_respond
  | |- tidy (Call _ _) =>
      apply tidy_call;
      [ cbn [tidyCall Claim.status Claim.wallet ReferralClaim.status
             ReferralClaim.wallet];
        first [ exact I
              | split; [reflexivity | apply toLowerCase_idempotent] ]
      | let o := fresh "o" in intros o; destruct o ]
  | |- tidy (match ?x with _ => _ end) => destruct x
  | |- tidy (if ?x then _ else _) => destruct x
  end.

Ltac tidy_walk :=
  repeat first
    [ progress unfold await, attempt, caught, getEligibility
    | progress cbn beta iota
    | tidy_step ].

Lemma settlement_tidy (cfg : config) (rt : runtime) (ch : channel)
    (wallet proof : JS.jsval) :
  tidy (settlement cfg rt ch wallet proof).
Proof.
  destruct ch; unfold settlement, claim_complete, claim_referral;
    cbn [cb_wallet cb_feeSig rb_wallet rb_txSig]; tidy_walk.
Qed.

Section Kept.

Variable env : environment.

Lemma perform_kept (log : list event) (st st' : store) (A : Type)
    (c : call A) (o : outcome A) :
  tidyCall c ->
  perform env log st c = (o, st') ->
  wellKept st -> wellKept st'.
Proof.
  intros Ht H [Hc Hr].
  destruct c; cbn [perform] in H; try (inversion H; subst; split; assumption).
  - apply Claim_create_inv in H.
    destruct H as [(_ & -> & _)|(_ & -> & _)]; [split; assumption|].
    split; [|exact Hr]. cbn [claims]. apply Forall_snoc; [exact Hc | exact Ht].
  - apply ReferralClaim_create_inv in H.
    destruct H as [(_ & ->)|(_ & -> & _)]; [split; assumption|].
    split; [exact Hc|]. cbn [referralClaims].
    apply Forall_snoc; [exact Hr | exact Ht].
Qed.

Lemma step_kept (p p' : prog) (w w' : world) :
  tidy p -> step env p w = (p', w') -> wellKept (w_store w) ->
  tidy p' /\ wellKept (w_store w').
Proof.
  intros T H K. destruct T as [r|A c k Hc Hk]; cbn [step] in H.
  - inversion H; subst. split; [constructor | exact K].
  - destruct (perform env (w_log w) (w_store w) c) as [o st'] eqn:E.
    inversion H; subst. cbn [w_store].
    split; [apply Hk | exact (perform_kept _ _ _ _ _ _ Hc E K)].
Qed.

Lemma run_kept (p : prog) :
  tidy p ->
  forall (w w' : world) (r : response),
    run env p w = (r, w') -> wellKept (w_store w) -> wellKept (w_store w').
Proof.
  induction 1 as [r0|A c k Hc Hk IH]; cbn [run]; intros w w' r H K.
  - inversion H; subst. exact K.
  - destruct (perform env (w_log w) (w_store w) c) as [o st'] eqn:E.
    apply (IH o _ _ _ H). cbn [w_store].
    exact (perform_kept _ _ _ _ _ _ Hc E K).
Qed.

Lemma interleave_kept (schedule : list bool) :
  forall (p1 p2 : prog) (w w' : world) (r1 r2 : response),
    tidy p1 -> tidy p2 ->
    interleave env schedule p1 p2 w = (r1, r2, w') ->
    wellKept (w_store w) -> wellKept (w_store w').
Proof.
  induction schedule as [|b rest IH]; cbn [interleave];
    intros p1 p2 w w' r1 r2 T1 T2 H K.
  - destruct (run env p1 w) as [x1 w1] eqn:E1.
    destruct (run env p2 w1) as [x2 w2] eqn:E2.
    inversion H; subst.
    exact (run_kept _ T2 _ _ _ E2 (run_kept _ T1 _ _ _ E1 K)).
  - destruct b.
    + destruct (step env p1 w) as [p1' w1] eqn:E.
      destruct (step_kept _ _ _ _ T1 E K) as [T1' K'].
      exact (IH _ _ _ _ _ _ T1' T2 H K').
    + destruct (step env p2 w) as [p2' w1] eqn:E.
      destruct (step_kept _ _ _ _ T2 E K) as [T2' K'].
      exact (IH _ _ _ _ _ _ T1 T2' H K').
Qed.

End Kept.

(** X13, records_stay_confirmed_and_lowercase: if every record of the
    store has status confirmed and a wallet key that equals its own
    lowercase form, the same holds after any two settlement requests run
    under any interleaving. *)
Theorem records_stay_confirmed_and_lowercase (cfg : config) (rt : runtime)
    (env : environment) (schedule : list bool) (ch1 ch2 : channel)
    (wallet1 proof1 wallet2 proof2 : JS.jsval) (w w' : world)
    (r1 r2 : response) :
  wellKept (w_store w) ->
  interleave env schedule
    (settlement cfg rt ch1 wallet1 proof1)
    (settlement cfg rt ch2 wallet2 proof2) w = (r1, r2, w') ->
  wellKept (w_store w').
Proof.
  intros K H.
  exact (interleave_kept env schedule _ _ _ _ _ _
           (settlement_tidy cfg rt ch1 wallet1 proof1)
           (settlement_tidy cfg rt ch2 wallet2 proof2) H K).
Qed.

(** X13: two racing requests for one wallet. *)
Lemma records_stay_confirmed_witness :
  wellKept (w_store (snd (Sample.raced Primary))).
Proof.
  refine (records_stay_confirmed_and_lowercase Sample.cfg Sample.rt
            (scripted Sample.usual) [true; false] Primary Primary
            (JS.JStr Sample.wallet) (JS.JStr "sig1")
            (JS.JStr Sample.wallet) (JS.JStr "sig1") (start emptyStore)
            _ (fst (fst (Sample.raced Primary)))
            (snd (fst (Sample.raced Primary))) _ _).
  - split; constructor.
  - vm_compute. reflexivity.
Defined.

(** X14, one_fee_payment_one_wallet: a fee transaction verifies for at
    most one wallet text: the comparison with the first account key is
    exact, so two wallets that both pass with the same transaction are
    equal. *)
Theorem one_fee_payment_one_wallet (cfg : config) (w1 w2 : string)
    (tx : Ledger.parsedTransaction) :
  feePaid cfg w1 tx = true -> feePaid cfg w2 tx = true -> w1 = w2.
Proof.
  intros H1 H2. apply feePaid_spec in H1, H2.
  destruct H1 as [H1 _], H2 as [H2 _]. congruence.
Qed.

(** X14: the sample fee payment. *)
Lemma one_fee_payment_witness :
  feePaid Sample.cfg Sample.wallet
    (Sample.feeTx Sample.wallet (FEE_COLLECTOR Sample.cfg) 15000000) = true
  /\ Sample.wallet = Sample.wallet.
Proof.
  split; [vm_compute; reflexivity|].
  refine (one_fee_payment_one_wallet Sample.cfg Sample.wallet Sample.wallet
            (Sample.feeTx Sample.wallet (FEE_COLLECTOR Sample.cfg) 15000000)
            _ _); vm_compute; reflexivity.
Defined.

(** X15, fee_scan_ignores_other_instructions: the scan of the fee
    transaction looks for some matching system transfer and ignores
    everything else: a transaction with the same first account key and at
    least the same instructions, in any order and with any others among
    them, verifies as well. *)
Theorem fee_scan_ignores_other_instructions (cfg : config) (wallet : string)
    (tx tx' : Ledger.parsedTransaction) :
  hd_error (Ledger.accountKeys tx') = hd_error (Ledger.accountKeys tx) ->
  incl (Ledger.instructions tx) (Ledger.instructions tx') ->
  feePaid cfg wallet tx = true ->
  feePaid cfg wallet tx' = true.
Proof.
  intros Hk Hi H. apply feePaid_spec in H. apply feePaid_spec.
  destruct H as (Hs & ix & Hin & Hf). split; [congruence|].
  exists ix. split; [apply Hi; exact Hin | exact Hf].
Qed.

(** X15: a memo instruction in front of the fee transfer. *)
Lemma fee_scan_ignores_witness :
  feePaid Sample.cfg Sample.wallet
    (Ledger.mkTx (Some (Ledger.mkMeta None))
       [Sample.wallet; FEE_COLLECTOR Sample.cfg]
       [Ledger.mkIx (Some "spl-memo") None;
        Sample.feeIx Sample.wallet (FEE_COLLECTOR Sample.cfg) 15000000])
  = true.
Proof.
  refine (fee_scan_ignores_other_instructions Sample.cfg Sample.wallet
            (Sample.feeTx Sample.wallet (FEE_COLLECTOR Sample.cfg) 15000000)
            _ _ _ _).
  - reflexivity.
  - intros ix Hin. right. exact Hin.
  - vm_compute. reflexivity.
Defined.






Lemma filter_length_app {A : Type} (f : A -> bool) (l1 l2 : list A) :
  List.length (filter f (l1 ++ l2))
  = (List.length (filter f l1) + List.length (filter f l2))%nat.
Proof. rewrite filter_app, length_app. reflexivity. Qed.

Lemma success_has_submission (cfg : config) (rt : runtime)
    (env : environment) (ch : channel) (wallet proof : JS.jsval) (st : store)
    (resp : response) (w' : world) :
  run env (settlement cfg rt ch wallet proof) (start st) = (resp, w') ->
  isSuccess resp = true ->
  List.length (filter isSubmission (w_log w')) = 1%nat
  /\ List.length (filter isInsert (w_log w')) = 1%nat.
Proof.
  intros H Hs.
  destruct ch; open_settlement H; walk H; leaf H;
    cbn [isSuccess sent fail] in Hs; try discriminate Hs; split; reflexivity.
Qed.

(** X18, sequential_requests_pay_once: two requests of one channel handled
    one after the other, for wallets with the same lowercase form: if the
    first succeeds, the second is answered as already claimed, and the two
    together have submitted exactly one transaction and inserted exactly
    one record; the last operation is the second request's lookup. *)
Theorem sequential_requests_pay_once (cfg : config) (rt : runtime)
    (env : environment) (ch : channel) (w1 w2 : string)
    (proof1 proof2 : JS.jsval) (st : store) (r1 r2 : response) (w' : world) :
  JS.toLowerCase w2 = JS.toLowerCase w1 ->
  w2 <> EmptyString ->
  JS.truthy proof2 = true ->
  lookupReachable rt ch w2 ->
  interleave env []
    (settlement cfg rt ch (JS.JStr w1) proof1)
    (settlement cfg rt ch (JS.JStr w2) proof2) (start st) = (r1, r2, w') ->
  isSuccess r1 = true ->
  r2 = duplicateClaim ch
  /\ List.length (filter isSubmission (w_log w')) = 1%nat
  /\ List.length (filter isInsert (w_log w')) = 1%nat
  /\ lastEvent (w_log w')
     = Some (lookup ch (JS.toLowerCase w1) (w_store w')).
Proof.
  intros Hk Hne Hp Hr H Hs. cbn [interleave] in H.
  destruct (run env (settlement cfg rt ch (JS.JStr w1) proof1) (start st))
    as [x1 wa] eqn:E1.
  destruct (run env (settlement cfg rt ch (JS.JStr w2) proof2) wa)
    as [x2 wb] eqn:E2.
  inversion H; subst. clear H.
  assert (Hset : settled ch (JS.toLowerCase w2) (w_store wa) = true).
  { rewrite Hk. exact (success_settles _ _ _ _ _ _ _ _ _ E1 Hs). }
  rewrite (repeat_rejected cfg rt env ch w2 proof2 wa Hne Hp Hr Hset) in E2.
  inversion E2; subst. cbn [w_log w_store].
  split; [reflexivity|].
  pose proof (success_has_submission _ _ _ _ _ _ _ _ _ E1 Hs) as [Hone Hins].
  rewrite !filter_length_app, Hone, Hins.
  split; [destruct ch; reflexivity|].
  split; [destruct ch; reflexivity|].
  unfold lastEvent. rewrite rev_unit. cbn [hd_error]. rewrite Hk. reflexivity.
Qed.

(** X18: the same wallet again in another case. *)
Lemma sequential_requests_witness :
  snd (fst (interleave (scripted Sample.usual) []
              (Sample.request Referral Sample.wallet)
              (Sample.request Referral Sample.walletOtherCase)
              (start emptyStore)))
  = duplicateClaim Referral.
Proof.
  refine (proj1 (sequential_requests_pay_once Sample.cfg Sample.rt
            (scripted Sample.usual) Referral Sample.wallet
            Sample.walletOtherCase (JS.JStr "sig1") (JS.JStr "sig1")
            emptyStore
            (fst (fst (interleave (scripted Sample.usual) []
                         (Sample.request Referral Sample.wallet)
                         (Sample.request Referral Sample.walletOtherCase)
                         (start emptyStore))))
            _ _ _ _ _ _ _ _)).
  - reflexivity.
  - discriminate.
  - reflexivity.
  - exists Sample.walletOtherCase. vm_compute. reflexivity.
  - vm_compute. reflexivity.
  - vm_compute. reflexivity.
Defined.

(** The distance of [Number(z)] from [z] is at most half a unit in the
    last of 53 bits. *)
Lemma Number_close (z m : Z) :
  0 <= z ->
  JS.Number_ofBigInt z = JS.DInt m ->
  Z.abs (m - z) * 2 ^ 53 <= z.
Proof.
  intros Hz. unfold JS.Number_ofBigInt.
  rewrite (Z.abs_eq z) by exact Hz.
  set (e := Z.log2 z + 1 - 53).
  destruct (e <=? 0) eqn:He.
  - intros E. injection E as <-. rewrite Z.sub_diag. cbn. exact Hz.
  - apply Z.leb_gt in He.
    assert (Hl : 53 <= Z.log2 z) by (unfold e in He; lia).
    assert (Hpos : 0 < z).
    { destruct (Z.eq_dec z 0) as [->|]; [cbn in Hl; lia | lia]. }
    rewrite Z.shiftr_div_pow2 by lia.
    rewrite !Z.shiftl_mul_pow2 by lia.
    rewrite !Z.mul_1_l.
    set (q := z / 2 ^ e).
    assert (Hp : 0 < 2 ^ e) by (apply Z.pow_pos_nonneg; lia).
    pose proof (Z.div_mod z (2 ^ e) ltac:(lia)) as Hdm.
    pose proof (Z.mod_pos_bound z (2 ^ e) Hp) as Hmb.
    fold q in Hdm.
    assert (Hhalf : 2 ^ e = 2 * 2 ^ (e - 1)).
    { rewrite <- Z.pow_succ_r by lia. f_equal. lia. }
    assert (Hlog : 2 ^ (e - 1) * 2 ^ 53 <= z).
    { rewrite <- Z.pow_add_r by lia.
      replace (e - 1 + 53) with (Z.log2 z) by (unfold e; lia).
      apply Z.log2_spec. exact Hpos. }
    assert (Hsgn : Z.sgn z = 1) by (apply Z.sgn_pos; exact Hpos).
    set (h := 2 ^ (e - 1)) in *.
    set (r := z - q * 2 ^ e).
    assert (Hr : r = z mod 2 ^ e) by (unfold r; lia).
    assert (Hr2 : 0 <= r < 2 * h) by lia.
    assert (Hend : forall m', Z.abs (m' - z) <= h -> Z.abs (m' - z) * 2 ^ 53 <= z).
    { intros m' Hm'. apply Z.le_trans with (h * 2 ^ 53); [|exact Hlog].
      apply Z.mul_le_mono_nonneg_r; [apply Z.pow_nonneg; lia | exact Hm']. }
    destruct ((h <? r) || ((h =? r) && Z.odd q)) eqn:Hup.
    + assert (h <= r).
      { apply orb_prop in Hup. destruct Hup as [Hup|Hup].
        - apply Z.ltb_lt in Hup. lia.
        - apply andb_prop in Hup. destruct Hup as [Hup _].
          apply Z.eqb_eq in Hup. lia. }
      destruct (_ <=? _); [discriminate|].
      intros E. injection E as <-.
      rewrite Hsgn, Z.mul_1_l. apply Hend.
      replace ((q + 1) * 2 ^ e - z) with (2 * h - r) by (unfold r; lia).
      lia.
    + assert (r <= h).
      { apply orb_false_elim in Hup. destruct Hup as [Hup _].
        apply Z.ltb_ge in Hup. exact Hup. }
      destruct (_ <=? _); [discriminate|].
      intros E. injection E as <-.
      rewrite Hsgn, Z.mul_1_l. apply Hend.
      replace (q * 2 ^ e - z) with (- r) by (unfold r; lia).
      lia.
Qed.

(** [Number(z)] is finite for every amount a 64-bit field can hold. *)
Lemma Number_finite (z : Z) :
  0 <= z < 2 ^ 64 -> exists m, JS.Number_ofBigInt z = JS.DInt m.
Proof.
  intros [Hz Hlt]. unfold JS.Number_ofBigInt.
  rewrite (Z.abs_eq z) by exact Hz.
  set (e := Z.log2 z + 1 - 53).
  destruct (e <=? 0) eqn:He; [eexists; reflexivity|].
  apply Z.leb_gt in He.
  assert (Hpos : 0 < z).
  { destruct (Z.eq_dec z 0) as [->|]; [cbn in He; lia | lia]. }
  assert (Hl : Z.log2 z < 64) by (apply Z.log2_lt_pow2; lia).
  rewrite Z.shiftr_div_pow2 by lia.
  rewrite !Z.shiftl_mul_pow2 by lia.
  rewrite !Z.mul_1_l.
  assert (Hp : 0 < 2 ^ e) by (apply Z.pow_pos_nonneg; lia).
  assert (He64 : 2 ^ e <= 2 ^ 64) by (apply Z.pow_le_mono_r; lia).
  pose proof (Z.div_mod z (2 ^ e) ltac:(lia)) as Hdm.
  pose proof (Z.mod_pos_bound z (2 ^ e) Hp) as Hmb.
  set (q := z / 2 ^ e) in *.
  assert (Hbig : 2 ^ 65 < 2 ^ 1024) by (apply Z.pow_lt_mono_r; lia).
  assert (Hq : q * 2 ^ e <= z) by lia.
  assert (H65 : 2 ^ 64 + 2 ^ 64 = 2 ^ 65) by reflexivity.
  match goal with
  | |- context [if ?c then q + 1 else q] => destruct c
  end;
    match goal with
    | |- context [?a <=? ?b] => destruct (Z.leb_spec a b) as [Hle|Hgt]
    end; try (eexists; reflexivity); exfalso; lia.
Qed.

(** X19, payout_amount_is_nearly_exact: for every amount an unsigned
    64-bit field can hold, the number the transfer instruction carries is
    finite and differs from the computed amount by at most amount / 2^53
    (half a unit in the last place of a double). *)
Theorem payout_amount_is_nearly_exact (cfg : config)
    (blockhash treasuryATA userATA userPk : string)
    (info : option Ledger.accountInfo) (a : Z)
    (src dst owner : string) (amt : JS.double) :
  0 <= a < 2 ^ 64 ->
  In (Ledger.Transfer src dst owner amt)
     (Ledger.body
        (payoutTransaction cfg blockhash treasuryATA userATA userPk info a)) ->
  exists m, amt = JS.DInt m /\ Z.abs (m - a) * 2 ^ 53 <= a.
Proof.
  intros Ha Hin. apply transfer_of_payout in Hin. destruct Hin as (-> & _ & _).
  destruct (Number_finite a Ha) as [m Hm]. exists m.
  split; [exact Hm|]. apply Number_close; [lia | exact Hm].
Qed.

(** X19: an amount above 2^53. *)
Lemma payout_amount_nearly_exact_witness :
  exists m,
    JS.DInt 9007199255000000512 = JS.DInt m
    /\ Z.abs (m - 9007199255000000000) * 2 ^ 53 <= 9007199255000000000.
Proof.
  refine (payout_amount_is_nearly_exact Sample.cfg "blockhash1"
            ("ata:" ++ TREASURY Sample.cfg) ("ata:" ++ Sample.wallet)
            Sample.wallet None 9007199255000000000
            ("ata:" ++ TREASURY Sample.cfg) ("ata:" ++ Sample.wallet)
            (TREASURY Sample.cfg) _ _ _).
  - lia.
  - right. left. reflexivity.
Defined.

Section Trim.

Import InitFee.

Lemma trimStart_first (s : string) (c : ascii) :
  firstChar (trimStart s) = Some c -> isWhiteSpace c = false.
Proof.
  induction s as [|a s IH]; cbn [trimStart firstChar]; [discriminate|].
  destruct (isWhiteSpace a) eqn:Ha; [exact IH|].
  cbn [firstChar]. intros E. injection E as <-. exact Ha.
Qed.

Lemma trimStart_fixed (s : string) :
  (forall c, firstChar s = Some c -> isWhiteSpace c = false) ->
  trimStart s = s.
Proof.
  destruct s as [|a s]; cbn [trimStart firstChar]; [reflexivity|].
  intros H. rewrite (H a eq_refl). reflexivity.
Qed.

Lemma trimEnd_idempotent (s : string) : trimEnd (trimEnd s) = trimEnd s.
Proof.
  induction s as [|a s IH]; cbn [trimEnd]; [reflexivity|].
  destruct (trimEnd s) as [|b k] eqn:E.
  - destruct (isWhiteSpace a) eqn:Ha; cbn [trimEnd]; [reflexivity|].
    rewrite Ha. reflexivity.
  - cbn [trimEnd] in *. rewrite IH. reflexivity.
Qed.

Lemma trimEnd_last (s : string) (c : ascii) :
  lastChar (trimEnd s) = Some c -> isWhiteSpace c = false.
Proof.
  induction s as [|a s IH]; cbn [trimEnd lastChar]; [discriminate|].
  destruct (trimEnd s) as [|b k] eqn:E.
  - destruct (isWhiteSpace a) eqn:Ha; cbn [lastChar]; [discriminate|].
    intros F. injection F as <-. exact Ha.
  - intros F. apply IH. exact F.
Qed.

Lemma trimEnd_first (s : string) (c : ascii) :
  firstChar (trimEnd s) = Some c -> firstChar s = Some c.
Proof.
  destruct s as [|a s]; cbn [trimEnd firstChar]; [discriminate|].
  destruct (trimEnd s); [destruct (isWhiteSpace a)|]; cbn [firstChar];
    intros F; try discriminate F; exact F.
Qed.

Lemma trimEnd_fixed (s : string) :
  (forall c, lastChar s = Some c -> isWhiteSpace c = false) ->
  trimEnd s = s.
Proof.
  induction s as [|a s IH]; cbn [trimEnd]; [reflexivity|].
  intros H. destruct s as [|b k].
  - cbn [trimEnd]. rewrite (H a eq_refl). reflexivity.
  - rewrite IH; [reflexivity|]. intros c Hc. apply H. exact Hc.
Qed.

End Trim.

(** What [trim] leaves: nothing to trim again, and no white space at
    either end; a text without white space at its ends is returned as is. *)
Lemma trim_properties (s : string) :
  InitFee.trim (InitFee.trim s) = InitFee.trim s
  /\ (forall c, firstChar (InitFee.trim s) = Some c ->
                InitFee.isWhiteSpace c = false)
  /\ (forall c, lastChar (InitFee.trim s) = Some c ->
                InitFee.isWhiteSpace c = false)
  /\ ((forall c, firstChar s = Some c -> InitFee.isWhiteSpace c = false) ->
      (forall c, lastChar s = Some c -> InitFee.isWhiteSpace c = false) ->
      InitFee.trim s = s).
Proof.
  assert (Hfirst : forall c, firstChar (InitFee.trim s) = Some c ->
                             InitFee.isWhiteSpace c = false).
  { intros c Hc. unfold InitFee.trim in Hc. apply trimEnd_first in Hc.
    exact (trimStart_first _ _ Hc). }
  split; [|split; [exact Hfirst|split]].
  - unfold InitFee.trim at 1.
    rewrite (trimStart_fixed _ Hfirst). unfold InitFee.trim.
    apply trimEnd_idempotent.
  - intros c. unfold InitFee.trim. apply trimEnd_last.
  - intros Hf Hl. unfold InitFee.trim.
    rewrite (trimStart_fixed _ Hf). exact (trimEnd_fixed _ Hl).
Qed.

Ltac walk_init H :=
  repeat first
    [ progress unfold InitFee.await in H
    | progress cbn [InitFee.run perform fst snd w_log w_store start observe app]
        in H
    | match type of H with
      | context [match ?x with _ => _ end] => destruct x eqn:?
      end ].

(** X20, init_fee_never_writes: /claim/init-fee never changes the store
    and never submits anything; it performs at most two operations, and
    the only ledger call among them is getLatestBlockhash. *)
Theorem init_fee_never_writes (cfg : config) (rt : runtime)
    (env : environment) (bodyWallet : JS.jsval) (st : store)
    (a : InitFee.answer) (w' : world) :
  InitFee.run env (InitFee.claim_init_fee cfg rt bodyWallet) (start st)
  = (a, w') ->
  w_store w' = st
  /\ filter isSubmission (w_log w') = []
  /\ filter isInsert (w_log w') = []
  /\ (List.length (w_log w') <= 2)%nat
  /\ (forall e, In e (w_log w') -> isLedgerEvent e = true ->
                exists o, e = EvGetLatestBlockhash o).
Proof.
  intros H. unfold InitFee.claim_init_fee in H.
  walk_init H; inversion H; subst; clear H;
    cbn [w_store w_log start filter isSubmission isInsert List.length In];
    repeat split; try lia;
    intros e He Hl; pick; cbn [isLedgerEvent] in Hl; try discriminate Hl;
    eexists; reflexivity.
Qed.

(** X20: a wallet with spaces around it. *)
Lemma init_fee_never_writes_witness :
  w_store (snd (Cases.initFee (JS.JStr Cases.padded) emptyStore)) = emptyStore.
Proof.
  refine (proj1 (init_fee_never_writes Sample.cfg Sample.rt
            (scripted Sample.usual) (JS.JStr Cases.padded) emptyStore _ _ _)).
  vm_compute. reflexivity.
Defined.

(** X21, init_fee_validates_the_wallet: /claim/init-fee either starts with
    the lookup of the trimmed, lowercased wallet, which takes a string
    that is not blank and that new PublicKey accepts after trimming; or it
    performs no operation and answers 400 Missing wallet (falsy or blank
    wallet), 500 with the TypeError message (truthy, not a string) or 500
    with the message of new PublicKey. *)
Theorem init_fee_validates_the_wallet (cfg : config) (rt : runtime)
    (env : environment) (bodyWallet : JS.jsval) (st : store)
    (a : InitFee.answer) (w' : world) :
  InitFee.run env (InitFee.claim_init_fee cfg rt bodyWallet) (start st)
  = (a, w') ->
  (exists text pk,
      bodyWallet = JS.JStr text
      /\ InitFee.trim text <> EmptyString
      /\ toPk rt (InitFee.trim text) = Resolved pk
      /\ hd_error (w_log w')
         = Some (lookup Primary (JS.toLowerCase (InitFee.trim text)) st))
  \/ (w_log w' = []
      /\ (((JS.truthy bodyWallet = false
            \/ exists text, bodyWallet = JS.JStr text
                            /\ InitFee.trim text = EmptyString)
           /\ a = InitFee.Failure 400 "Missing wallet")
          \/ (JS.truthy bodyWallet = true
              /\ (forall text, bodyWallet <> JS.JStr text)
              /\ a = InitFee.Failure 500 InitFee.trimIsNotAFunction)
          \/ (exists text m,
                bodyWallet = JS.JStr text
                /\ toPk rt (InitFee.trim text) = Rejected m
                /\ a = InitFee.Failure 500 m))).
Proof.
  intros H. unfold InitFee.claim_init_fee in H.
  destruct (JS.truthy bodyWallet) eqn:Ht.
  - destruct bodyWallet as [| |b|n|text]; try discriminate Ht.
    1,2: right; cbn in H; inversion H; subst; split; [reflexivity|];
         right; left; repeat split; try assumption; discriminate.
    destruct (InitFee.trim text =? "")%string eqn:Hb.
    + apply String.eqb_eq in Hb. cbn in H. inversion H; subst.
      right. split; [reflexivity|]. left. split; [|reflexivity].
      right. exists text. auto.
    + apply String.eqb_neq in Hb.
      destruct (toPk rt (InitFee.trim text)) as [pk|m] eqn:Hpk.
      * left. exists text, pk. repeat split; try assumption.
        walk_init H; inversion H; subst; clear H; cbn [w_log hd_error];
          unfold lookup; congruence.
      * right. cbn in H. inversion H; subst. split; [reflexivity|].
        right. right. exists text, m. auto.
  - right. cbn in H. inversion H; subst. split; [reflexivity|].
    left. split; [left; reflexivity | reflexivity].
Qed.

(** X21: a wallet of spaces only. *)
Lemma init_fee_validates_witness :
  w_log (snd (Cases.initFee (JS.JStr "   ") emptyStore)) = [].
Proof.
  destruct (init_fee_validates_the_wallet Sample.cfg Sample.rt
              (scripted Sample.usual) (JS.JStr "   ") emptyStore _ _ eq_refl)
    as [(text & pk & E & Hne & _)|(Hl & _)]; [|exact Hl].
  exfalso. injection E as <-. apply Hne. reflexivity.
Defined.




Lemma given_text (bodyWallet : JS.jsval) (s : string) :
  (if JS.truthy bodyWallet then bodyWallet else JS.JStr "") = JS.JStr s ->
  (InitFee.trim s =? "")%string = false ->
  bodyWallet = JS.JStr s.
Proof.
  destruct (JS.truthy bodyWallet); intros E Hb; [exact E|].
  injection E as <-. discriminate Hb.
Qed.

Lemma init_fee_built (cfg : config) (rt : runtime)
    (env : environment) (bodyWallet : JS.jsval) (st : store)
    (tx : InitFee.transaction) (w' : world) :
  InitFee.run env (InitFee.claim_init_fee cfg rt bodyWallet) (start st)
  = (InitFee.Built tx, w') ->
  exists text pk blockhash,
    bodyWallet = JS.JStr text
    /\ toPk rt (InitFee.trim text) = Resolved pk
    /\ tx = InitFee.mkTransaction pk blockhash
              [InitFee.mkTransfer pk (FEE_COLLECTOR cfg)
                 (JS.Number_ofBigInt (CLAIM_FEE_LAMPORTS cfg))].
Proof.
  intros H. unfold InitFee.claim_init_fee in H.
  walk_init H; inversion H; subst; clear H.
  match goal with
  | E : (if _ then _ else _) = JS.JStr _, B : (_ =? _)%string = false |- _ =>
      apply (given_text _ _ E) in B; subst bodyWallet
  end.
  do 3 eexists. split; [reflexivity|]. split; [eassumption | reflexivity].
Qed.

(** X23, init_fee_builds_the_fee_payment: when /claim/init-fee answers
    with a transaction, the trimmed wallet had no record, the operations
    were the lookup and getLatestBlockhash, and the transaction has the
    wallet as fee payer, the blockhash just read and a single transfer
    from the wallet to FEE_COLLECTOR of Number(CLAIM_FEE_LAMPORTS)
    lamports, which is the configured fee itself when that is at most
    2^53. *)
Theorem init_fee_builds_the_fee_payment (cfg : config) (rt : runtime)
    (env : environment) (bodyWallet : JS.jsval) (st : store)
    (tx : InitFee.transaction) (w' : world) :
  InitFee.run env (InitFee.claim_init_fee cfg rt bodyWallet) (start st)
  = (InitFee.Built tx, w') ->
  exists text pk blockhash,
    bodyWallet = JS.JStr text
    /\ toPk rt (InitFee.trim text) = Resolved pk
    /\ settled Primary (JS.toLowerCase (InitFee.trim text)) st = false
    /\ w_log w'
       = [lookup Primary (JS.toLowerCase (InitFee.trim text)) st;
          EvGetLatestBlockhash (Resolved blockhash)]
    /\ tx = InitFee.mkTransaction pk blockhash
              [InitFee.mkTransfer pk (FEE_COLLECTOR cfg)
                 (JS.Number_ofBigInt (CLAIM_FEE_LAMPORTS cfg))]
    /\ (Z.abs (CLAIM_FEE_LAMPORTS cfg) <= 2 ^ 53 ->
        map InitFee.lamports (InitFee.body tx)
        = [JS.DInt (CLAIM_FEE_LAMPORTS cfg)]).
Proof.
  intros H. unfold InitFee.claim_init_fee in H.
  walk_init H; inversion H; subst; clear H.
  match goal with
  | E : (if _ then _ else _) = JS.JStr _, B : (_ =? _)%string = false |- _ =>
      apply (given_text _ _ E) in B; subst bodyWallet
  end.
  do 3 eexists.
  split; [reflexivity|]. split; [eassumption|].
  split; [apply (unsettled Primary); assumption|].
  split; [cbn [w_log]; unfold lookup;
          match goal with
          | E : Claim_findOne _ _ = None |- _ => rewrite E
          end; reflexivity|].
  split; [reflexivity|].
  intros Hfee. cbn [InitFee.body app map InitFee.lamports].
  rewrite (Number_exact _ Hfee). reflexivity.
Qed.

(** X23: a wallet with spaces around it. *)
Lemma init_fee_builds_witness :
  exists text pk,
    JS.JStr Cases.padded = JS.JStr text
    /\ toPk Sample.rt (InitFee.trim text) = Resolved pk.
Proof.
  destruct (init_fee_builds_the_fee_payment Sample.cfg Sample.rt
              (scripted Sample.usual) (JS.JStr Cases.padded) emptyStore
              (InitFee.mkTransaction Sample.wallet "blockhash1"
                 [InitFee.mkTransfer Sample.wallet (FEE_COLLECTOR Sample.cfg)
                    (JS.DInt 15000000)])
              (snd (Cases.initFee (JS.JStr Cases.padded) emptyStore)))
    as (text & pk & _ & E & Hpk & _).
  - vm_compute. reflexivity.
  - exists text, pk. split; assumption.
Defined.

(** X24, init_fee_payment_passes_verification: the two steps fit together:
    if the transaction built by /claim/init-fee is executed as built (the
    ledger reports its fee payer as first account key and its transfer as
    a parsed system transfer) and the fee is at most 2^53 lamports, the
    scan of /claim/complete accepts it for the trimmed wallet; for the
    untrimmed text it does not, whenever trimming changed the text. *)
Theorem init_fee_payment_passes_verification (cfg : config) (rt : runtime)
    (env : environment) (text : string) (st : store)
    (tx : InitFee.transaction) (w' : world)
    (ptx : Ledger.parsedTransaction) :
  InitFee.run env (InitFee.claim_init_fee cfg rt (JS.JStr text)) (start st)
  = (InitFee.Built tx, w') ->
  toPk rt (InitFee.trim text) = Resolved (InitFee.trim text) ->
  Z.abs (CLAIM_FEE_LAMPORTS cfg) <= 2 ^ 53 ->
  hd_error (Ledger.accountKeys ptx) = Some (InitFee.feePayer tx) ->
  (forall t, In t (InitFee.body tx) ->
             exists ix, In ix (Ledger.instructions ptx) /\ reportedAs t ix) ->
  feePaid cfg (InitFee.trim text) ptx = true
  /\ (text <> InitFee.trim text -> feePaid cfg text ptx = false).
Proof.
  intros H Hpk Hfee Hhd Hrep.
  destruct (init_fee_built _ _ _ _ _ _ _ H)
    as (text' & pk & blockhash & E & Hpk' & Htx).
  injection E as <-. rewrite Hpk in Hpk'. injection Hpk' as <-.
  subst tx. cbn [InitFee.feePayer InitFee.body] in *.
  assert (Hpaid : feePaid cfg (InitFee.trim text) ptx = true).
  { apply feePaid_spec. split; [exact Hhd|].
    destruct (Hrep _ (or_introl eq_refl))
      as (ix & Hin & p & i & Hp & Hpa & Hty & Hi & Hsrc & Hdst & Hl).
    cbn [InitFee.fromPubkey InitFee.toPubkey InitFee.lamports] in *.
    rewrite (Number_exact _ Hfee) in Hl. injection Hl as Hl.
    exists ix. split; [exact Hin|]. exists p, i. auto 10. }
  split; [exact Hpaid|].
  intros Hne. destruct (feePaid cfg text ptx) eqn:E; [|reflexivity].
  exfalso. apply Hne. symmetry.
  apply feePaid_spec in Hpaid, E. destruct Hpaid as [A _], E as [B _].
  congruence.
Qed.

(** X24: a wallet with spaces around it. *)
Lemma init_fee_payment_passes_witness :
  feePaid Sample.cfg (InitFee.trim Cases.padded)
    (Sample.feeTx Sample.wallet (FEE_COLLECTOR Sample.cfg) 15000000) = true
  /\ (Cases.padded <> InitFee.trim Cases.padded ->
      feePaid Sample.cfg Cases.padded
        (Sample.feeTx Sample.wallet (FEE_COLLECTOR Sample.cfg) 15000000)
      = false).
Proof.
  refine (init_fee_payment_passes_verification Sample.cfg Sample.rt
            (scripted Sample.usual) Cases.padded emptyStore
            (InitFee.mkTransaction Sample.wallet "blockhash1"
               [InitFee.mkTransfer Sample.wallet (FEE_COLLECTOR Sample.cfg)
                  (JS.DInt 15000000)])
            (snd (Cases.initFee (JS.JStr Cases.padded) emptyStore))
            (Sample.feeTx Sample.wallet (FEE_COLLECTOR Sample.cfg) 15000000)
            _ _ _ _ _).
  - vm_compute. reflexivity.
  - vm_compute. reflexivity.
  - vm_compute. discriminate.
  - reflexivity.
  - intros t [<-|[]]. eexists. split; [left; reflexivity|].
    eexists. eexists. repeat split; reflexivity.
Defined.
